(** * Function reconstruction from derivatives: the pipeline of [app.py]

    [app.py] is a straight-line script: it reads five text fields and a
    range from the sidebar, parses the derivative(s) with SymPy, integrates
    them up, solves the initial conditions for the integration constants,
    turns the result into NumPy callables and evaluates them on a grid.

    The script is embedded section by section (the headings of its comment
    banners), as functions over an explicit interface of the SymPy / NumPy /
    Python operations it calls.  Streamlit's [st.error], [st.warning] and
    [st.stop] become a writer-and-error monad.  A concrete instance of the
    interface (polynomial expressions over exact rationals) is used to run
    the script on concrete inputs.  What the script asks of Matplotlib is
    kept as the list of its calls on the subplots. *)

From Stdlib Require Import String Ascii List Bool Arith ZArith QArith Lia.
From Stdlib Require Import Qreduction Qfield DecimalString.
Import ListNotations.

Local Close Scope Q_scope.
Local Open Scope nat_scope.
Local Open Scope string_scope.
Local Open Scope list_scope.

(** ** Exceptions, Streamlit messages and the script monad *)

(** A Python exception: its class name and [str(e)]. *)
Inductive Exn : Type :=
| Exception (cls : string) (msg : string).

Definition exn_str (e : Exn) : string :=
  match e with Exception _ msg => msg end.

Definition exn_class (e : Exn) : string :=
  match e with Exception cls _ => cls end.

(** The value of a call that may raise: [inl e] is the raised exception. *)
Definition Res (A : Type) : Type := (Exn + A)%type.

(** What the script writes to the page apart from plots and formulas. *)
Inductive UiEvent : Type :=
| StError (msg : string)
| StWarning (msg : string).

(** How a run of (a part of) the script ends: it falls through with a
    value, it calls [st.stop()], or an exception nobody catches ends it. *)
Inductive Outcome (A : Type) : Type :=
| Done (a : A)
| Stopped
| Raised (e : Exn).

Arguments Done {A} a.
Arguments Stopped {A}.
Arguments Raised {A} e.

Definition Script (A : Type) : Type := (Outcome A * list UiEvent)%type.

Definition ret {A} (a : A) : Script A := (Done a, []).

Definition bind {A B} (m : Script A) (k : A -> Script B) : Script B :=
  match m with
  | (Done a, w) => let (o, w') := k a in (o, w ++ w')
  | (Stopped, w) => (Stopped, w)
  | (Raised e, w) => (Raised e, w)
  end.

Definition st_error {A} (msg : string) (k : Script A) : Script A :=
  let (o, w) := k in (o, StError msg :: w).

Definition st_warning (msg : string) : Script unit :=
  (Done tt, [StWarning msg]).

Definition st_stop {A} : Script A := (Stopped, []).

(** A call outside any [try]: an exception ends the script. *)
Definition call {A} (r : Res A) : Script A :=
  match r with
  | inr a => ret a
  | inl e => (Raised e, [])
  end.

(** [try: r  except Exception as e: handler e]. *)
Definition try_except {A} (r : Res A) (handler : Exn -> Script A) : Script A :=
  match r with
  | inr a => ret a
  | inl e => handler e
  end.

Declare Scope script_scope.
Delimit Scope script_scope with script.
Notation "x <- m ;; k" := (bind m (fun x => k))
  (at level 61, m at next level, right associativity) : script_scope.
Notation "' p <- m ;; k" := (bind m (fun x => match x with p => k end))
  (at level 61, p pattern, m at next level, right associativity) : script_scope.

(** The error monad of the calls themselves. *)
Definition rbind {A B} (r : Res A) (k : A -> Res B) : Res B :=
  match r with
  | inr a => k a
  | inl e => inl e
  end.

(** ** Python's [str.strip], [str.split] and truthiness *)

(** [str.isspace] on the ASCII range: tab, LF, VT, FF, CR, FS, GS, RS, US
    and the blank. *)
Definition py_isspace (c : ascii) : bool :=
  let n := nat_of_ascii c in
  (((9 <=? n) && (n <=? 13)) || ((28 <=? n) && (n <=? 32)))%nat.

Fixpoint lstrip (s : string) : string :=
  match s with
  | EmptyString => EmptyString
  | String c s' => if py_isspace c then lstrip s' else s
  end.

Fixpoint rstrip (s : string) : string :=
  match s with
  | EmptyString => EmptyString
  | String c s' =>
      match rstrip s' with
      | EmptyString => if py_isspace c then EmptyString else String c EmptyString
      | t => String c t
      end
  end.

(** [s.strip()]. *)
Definition strip (s : string) : string := lstrip (rstrip s).

(** [bool(s)] for a string: the empty string is falsy. *)
Definition truthy (s : string) : bool :=
  match s with
  | EmptyString => false
  | String _ _ => true
  end.

(** [s.split(sep)] for a one-character separator: always at least one
    piece, empty pieces kept. *)
Fixpoint split (sep : ascii) (s : string) : list string :=
  match s with
  | EmptyString => [EmptyString]
  | String c s' =>
      if Ascii.eqb c sep then EmptyString :: split sep s'
      else match split sep s' with
           | [] => [String c EmptyString]
           | p :: ps => String c p :: ps
           end
  end.

Definition comma : ascii := ","%char.

(** ** The libraries the script calls

    Everything [app.py] imports is taken through this interface, one field
    per call the script makes.  The calls with a [Res] result are those
    that can raise; building, substituting into and printing an expression
    are taken as total. *)

Class PyLibs : Type := {
  (** Python's [float] and NumPy's arrays. *)
  pyfloat : Type;
  ndarray : Type;
  (** [float(s)]. *)
  float_of_str : string -> Res pyfloat;
  (** [np.linspace(start, stop, num)]. *)
  linspace : pyfloat -> pyfloat -> nat -> ndarray;
  (** SymPy expressions, and one dict of [solve(..., dict=True)]. *)
  Expr : Type;
  Solution : Type;
  (** [sp.symbols(name)] for one name. *)
  symbols : string -> Expr;
  (** [sp.sympify(text)]. *)
  sympify : string -> Res Expr;
  (** A Python float where SymPy expects an expression. *)
  of_float : pyfloat -> Expr;
  (** [sp.integrate(e, v)]. *)
  integrate : Expr -> Expr -> Res Expr;
  (** [a + b] and [a - b]. *)
  expr_add : Expr -> Expr -> Expr;
  expr_sub : Expr -> Expr -> Expr;
  (** [e.subs(old, new)] and [e.subs(d)] for a dict [d]. *)
  subs : Expr -> Expr -> Expr -> Expr;
  subs_dict : Expr -> Solution -> Expr;
  (** [sp.solve(equations, syms, dict=True)] and [sp.solve(e, v)]. *)
  solve_dict : list Expr -> list Expr -> Res (list Solution);
  solve : Expr -> Expr -> Res (list Expr);
  (** [v.is_real]: [True], [False] or [None]. *)
  is_real : Expr -> option bool;
  (** [float(v)] for an expression. *)
  float_of_expr : Expr -> Res pyfloat;
  (** [sp.lambdify(v, e, "numpy")]: the callable it returns may itself
      raise when it is called. *)
  lambdify : Expr -> Expr -> Res (ndarray -> Res ndarray);
  (** [sp.latex(e)]. *)
  latex : Expr -> string
}.

(** ** The script's data

    The records are parameterised by the types the libraries provide:
    [F] for Python floats, [E] for expressions, [A] for arrays. *)

(** The sidebar: five text inputs and the range slider. *)
Record Inputs (F : Type) : Type := {
  derivative_str : string;
  second_derivative_str : string;
  ic_fx : string;
  ic_fpx : string;
  critical_points_str : string;
  xmin : F;
  xmax : F
}.

Arguments Build_Inputs {F}.
Arguments derivative_str {F}.
Arguments second_derivative_str {F}.
Arguments ic_fx {F}.
Arguments ic_fpx {F}.
Arguments critical_points_str {F}.
Arguments xmin {F}.
Arguments xmax {F}.

(** What the first four sections leave behind. *)
Record Reconstruction (E : Type) : Type := {
  fdoubleprime : option E;
  f_expr : E;
  fprime_expr : E
}.

Arguments Build_Reconstruction {E}.
Arguments fdoubleprime {E}.
Arguments f_expr {E}.
Arguments fprime_expr {E}.

(** The callables of the section "Numerical lambdas". *)
Record Lambdas (A : Type) : Type := {
  f_num : A -> Res A;
  fp_num : A -> Res A;
  fpp_num : option (A -> Res A)
}.

Arguments Build_Lambdas {A}.
Arguments f_num {A}.
Arguments fp_num {A}.
Arguments fpp_num {A}.

(** What the name [inflection_points] can hold: floats, or the
    expressions [sp.solve] returned. *)
Inductive PyVal (F E : Type) : Type :=
| PyFloat (v : F)
| PyExpr (e : E).

Arguments PyFloat {F E}.
Arguments PyExpr {F E}.

(** The curves the plots show. *)
Record Curves (A : Type) : Type := {
  f_vals : A;
  fp_vals : A;
  fpp_vals : option A
}.

Arguments Build_Curves {A}.
Arguments f_vals {A}.
Arguments fp_vals {A}.
Arguments fpp_vals {A}.

(** What a completed run hands to the page. *)
Record Output (F E A : Type) : Type := {
  out_reconstruction : Reconstruction E;
  out_x_vals : A;
  out_curves : Curves A;
  out_critical_points : list F;
  out_inflection_points : list (PyVal F E);
  out_formulas : list string
}.

Arguments Build_Output {F E A}.
Arguments out_reconstruction {F E A}.
Arguments out_x_vals {F E A}.
Arguments out_curves {F E A}.
Arguments out_critical_points {F E A}.
Arguments out_inflection_points {F E A}.
Arguments out_formulas {F E A}.

(** ** The script *)

Section Pipeline.

Context {L : PyLibs}.

Local Open Scope script_scope.

(** [x = sp.symbols("x")], and [C1, C2 = sp.symbols("C1 C2")]. *)
Definition x : Expr := symbols "x".
Definition C1 : Expr := symbols "C1".
Definition C2 : Expr := symbols "C2".

(** *** Parse symbolic expressions (lines 62-74) *)

Definition parse_expressions (derivative_str second_derivative_str : string)
  : Script (Expr * option Expr) :=
  fprime <- try_except (sympify derivative_str)
              (fun e => st_error ("Invalid f'(x): " ++ exn_str e) st_stop) ;;
  fdoubleprime <-
    (if truthy (strip second_derivative_str) then
       try_except (rbind (sympify second_derivative_str) (fun e => inr (Some e)))
         (fun e => st_error ("Invalid f''(x): " ++ exn_str e) st_stop)
     else ret None) ;;
  ret (fprime, fdoubleprime).

(** *** Reconstruct original function (lines 79-86)

    The result is the pair [(fprime_expr, f_expr)]. *)

Definition reconstruct (fprime : Expr) (fdoubleprime : option Expr)
  : Script (Expr * Expr) :=
  match fdoubleprime with
  | Some fpp =>
      i1 <- call (integrate fpp x) ;;
      let fprime_expr := expr_add i1 C1 in
      i2 <- call (integrate fprime_expr x) ;;
      ret (fprime_expr, expr_add i2 C2)
  | None =>
      i1 <- call (integrate fprime x) ;;
      ret (fprime, expr_add i1 C1)
  end.

(** *** Apply initial conditions (lines 91-111) *)

(** [a, b = map(float, parts)]: the map is consumed lazily by the
    unpacking, which asks for a third item to see that there is none. *)
Definition unpack_floats (parts : list string) : Res (pyfloat * pyfloat) :=
  match parts with
  | [] => inl (Exception "ValueError" "not enough values to unpack (expected 2, got 0)")
  | p1 :: rest =>
      rbind (float_of_str p1) (fun a =>
      match rest with
      | [] => inl (Exception "ValueError" "not enough values to unpack (expected 2, got 1)")
      | p2 :: rest' =>
          rbind (float_of_str p2) (fun b =>
          match rest' with
          | [] => inr (a, b)
          | p3 :: _ =>
              rbind (float_of_str p3) (fun _ =>
              inl (Exception "ValueError" "too many values to unpack (expected 2)"))
          end)
      end)
  end.

(** The body of either [try]: [e.subs(x, a) - b] for the text ["a,b"]. *)
Definition condition (e : Expr) (text : string) : Res Expr :=
  rbind (unpack_floats (split comma text)) (fun ab =>
  inr (expr_sub (subs e x (of_float (fst ab))) (of_float (snd ab)))).

Definition initial_conditions (f_expr fprime_expr : Expr) (ic_fx ic_fpx : string)
  : Script (list Expr) :=
  eq1 <- try_except (condition f_expr ic_fx)
           (fun _ => st_error "Invalid f(a)=b input." st_stop) ;;
  if truthy (strip ic_fpx) then
    eq2 <- try_except (condition fprime_expr ic_fpx)
             (fun _ => st_error "Invalid f'(c)=d input." st_stop) ;;
    ret [eq1; eq2]
  else ret [eq1].

(** The unknowns of line 108: the literal list [[C1, C2]]. *)
Definition unknowns : list Expr := [C1; C2].

(** Lines 108-111.  The result is the pair [(f_expr, fprime_expr)]. *)
Definition solve_constants (f_expr fprime_expr : Expr) (equations : list Expr)
  : Script (Expr * Expr) :=
  constants <- call (solve_dict equations unknowns) ;;
  match constants with
  | sol :: _ => ret (subs_dict f_expr sol, subs_dict fprime_expr sol)
  | [] => ret (f_expr, fprime_expr)
  end.

Definition reconstruction (i : Inputs pyfloat) : Script (Reconstruction Expr) :=
  ' (fprime, fdoubleprime) <-
      parse_expressions (derivative_str i) (second_derivative_str i) ;;
  ' (fprime_expr, f_expr) <- reconstruct fprime fdoubleprime ;;
  equations <- initial_conditions f_expr fprime_expr (ic_fx i) (ic_fpx i) ;;
  ' (f_expr, fprime_expr) <- solve_constants f_expr fprime_expr equations ;;
  ret {| fdoubleprime := fdoubleprime; f_expr := f_expr; fprime_expr := fprime_expr |}.

(** *** Numerical lambdas (lines 116-122) *)

Definition numerical_lambdas (r : Reconstruction Expr) : Script (Lambdas ndarray) :=
  f_num <- call (lambdify x (f_expr r)) ;;
  fp_num <- call (lambdify x (fprime_expr r)) ;;
  fpp_num <-
    match fdoubleprime r with
    | Some fpp => g <- call (lambdify x fpp) ;; ret (Some g)
    | None => ret None
    end ;;
  ret {| f_num := f_num; fp_num := fp_num; fpp_num := fpp_num |}.

Definition x_vals (xmin xmax : pyfloat) : ndarray := linspace xmin xmax 1000.

(** *** Critical & inflection points (lines 127-140) *)

(** [[float(v) for v in parts]]. *)
Fixpoint floats (parts : list string) : Res (list pyfloat) :=
  match parts with
  | [] => inr []
  | p :: rest =>
      rbind (float_of_str p) (fun v =>
      rbind (floats rest) (fun vs => inr (v :: vs)))
  end.

Definition parse_critical_points (critical_points_str : string)
  : Script (list pyfloat) :=
  if truthy (strip critical_points_str) then
    try_except (floats (split comma critical_points_str))
      (fun _ => _ <- st_warning "Could not parse critical points." ;; ret [])
  else ret [].

(** [[float(v) for v in sols if v.is_real]]. *)
Fixpoint real_floats (sols : list Expr) : Res (list pyfloat) :=
  match sols with
  | [] => inr []
  | v :: rest =>
      match is_real v with
      | Some true =>
          rbind (float_of_expr v) (fun f =>
          rbind (real_floats rest) (fun fs => inr (f :: fs)))
      | _ => real_floats rest
      end
  end.

(** Lines 134-140.  Line 137 rebinds [inflection_points] to the list
    [sp.solve] returned before line 138 converts it; [except: pass] leaves
    the name as it is at the time of the exception. *)
Definition find_inflection_points (fdoubleprime : option Expr)
  : Script (list (PyVal pyfloat Expr)) :=
  match fdoubleprime with
  | None => ret []
  | Some fpp =>
      match solve fpp x with
      | inl _ => ret []
      | inr sols =>
          match real_floats sols with
          | inr fs => ret (map PyFloat fs)
          | inl _ => ret (map PyExpr sols)
          end
      end
  end.

(** *** Plotting and display (lines 145-184)

    Matplotlib and the page are outside the embedding; what is kept of
    these sections is what they compute: the curves [f_num(x_vals)],
    [fp_num(x_vals)] and [fpp_num(x_vals)], in the order the script calls
    them, the marker lists and the formulas. *)

Definition plotting (lam : Lambdas ndarray) (xs : ndarray) : Script (Curves ndarray) :=
  f_vals <- call (f_num lam xs) ;;
  fp_vals <- call (fp_num lam xs) ;;
  fpp_vals <-
    match fpp_num lam with
    | Some g => v <- call (g xs) ;; ret (Some v)
    | None => ret None
    end ;;
  ret {| f_vals := f_vals; fp_vals := fp_vals; fpp_vals := fpp_vals |}.

Definition display_formulas (r : Reconstruction Expr) : list string :=
  ("f(x) = " ++ latex (f_expr r))%string
  :: ("f'(x) = " ++ latex (fprime_expr r))%string
  :: match fdoubleprime r with
     | Some fpp => [("f''(x) = " ++ latex fpp)%string]
     | None => []
     end.

(** Everything after the constants are settled. *)
Definition evaluation (i : Inputs pyfloat) (r : Reconstruction Expr)
  : Script (Output pyfloat Expr ndarray) :=
  lam <- numerical_lambdas r ;;
  let xs := x_vals (xmin i) (xmax i) in
  critical_points <- parse_critical_points (critical_points_str i) ;;
  inflection_points <- find_inflection_points (fdoubleprime r) ;;
  curves <- plotting lam xs ;;
  ret {| out_reconstruction := r;
         out_x_vals := xs;
         out_curves := curves;
         out_critical_points := critical_points;
         out_inflection_points := inflection_points;
         out_formulas := display_formulas r |}.

(** The rest of [evaluation] once the critical points are known. *)
Definition after_critical_points (i : Inputs pyfloat) (r : Reconstruction Expr)
  (lam : Lambdas ndarray) (critical_points : list pyfloat)
  : Script (Output pyfloat Expr ndarray) :=
  inflection_points <- find_inflection_points (fdoubleprime r) ;;
  curves <- plotting lam (x_vals (xmin i) (xmax i)) ;;
  ret {| out_reconstruction := r;
         out_x_vals := x_vals (xmin i) (xmax i);
         out_curves := curves;
         out_critical_points := critical_points;
         out_inflection_points := inflection_points;
         out_formulas := display_formulas r |}.

(** The whole script. *)
Definition run (i : Inputs pyfloat) : Script (Output pyfloat Expr ndarray) :=
  r <- reconstruction i ;;
  evaluation i r.

End Pipeline.

(** ** The figure (lines 145-175)

    What the script asks of Matplotlib, as the list of its calls on the
    subplots [axes[k]], in order; what Matplotlib draws is outside the
    embedding.  The curves are those [plotting] computed. *)

(** Line 145: [num_plots = 2 if fdoubleprime is None else 3]. *)
Definition num_plots {E} (fdoubleprime : option E) : nat :=
  match fdoubleprime with
  | None => 2
  | Some _ => 3
  end.

(** One call on [axes[axis]].  Every [axvline] of the script has
    [linestyle="--"] and [alpha=0.6]; only the colour varies. *)
Inductive Draw (F E A : Type) : Type :=
| Plot (axis : nat) (xs ys : A)
| SetYLabel (axis : nat) (label : string)
| Grid (axis : nat)
| AxVLine (axis : nat) (at_x : PyVal F E) (color : option string)
| SetXLabel (axis : nat) (label : string).

Arguments Plot {F E A}.
Arguments SetYLabel {F E A}.
Arguments Grid {F E A}.
Arguments AxVLine {F E A}.
Arguments SetXLabel {F E A}.

Definition draw_axis {F E A} (d : Draw F E A) : nat :=
  match d with
  | Plot k _ _ => k
  | SetYLabel k _ => k
  | Grid k => k
  | AxVLine k _ _ => k
  | SetXLabel k _ => k
  end.

Definition is_plot {F E A} (d : Draw F E A) : bool :=
  match d with
  | Plot _ _ _ => true
  | _ => false
  end.

(** Lines 151-173 for a completed run, whose curves are in [out_curves];
    [axes[-1]] is the subplot [num_plots - 1]. *)
Definition figure {F E A} (o : Output F E A) : list (Draw F E A) :=
  let fdoubleprime := fdoubleprime (out_reconstruction o) in
  let x_vals := out_x_vals o in
  [Plot 0 x_vals (f_vals (out_curves o)); SetYLabel 0 "f(x)"; Grid 0]
  ++ [Plot 1 x_vals (fp_vals (out_curves o)); SetYLabel 1 "f'(x)"; Grid 1]
  ++ match fdoubleprime, fpp_vals (out_curves o) with
     | Some _, Some v => [Plot 2 x_vals v; SetYLabel 2 "f''(x)"; Grid 2]
     | _, _ => []
     end
  ++ flat_map
       (fun cp => [AxVLine 0 (PyFloat cp) None; AxVLine 1 (PyFloat cp) None])
       (out_critical_points o)
  ++ flat_map
       (fun ip =>
          AxVLine 0 ip (Some "red")
          :: match fdoubleprime with
             | Some _ => [AxVLine 2 ip (Some "red")]
             | None => []
             end)
       (out_inflection_points o)
  ++ [SetXLabel (num_plots fdoubleprime - 1) "x"].

(** ** What the page shows

    The four messages the script hands to [st.error] (lines 65, 73, 97
    and 105). *)
Definition error_messages (msg : string) : Prop :=
  (exists e, msg = ("Invalid f'(x): " ++ exn_str e)%string)
  \/ (exists e, msg = ("Invalid f''(x): " ++ exn_str e)%string)
  \/ msg = "Invalid f(a)=b input."
  \/ msg = "Invalid f'(c)=d input.".

(** A part of the script is tidy when it writes nothing unless it stops,
    and then exactly one of the four error messages. *)
Definition tidy {A} (m : Script A) : Prop :=
  match fst m with
  | Stopped => exists msg, snd m = [StError msg] /\ error_messages msg
  | Done _ | Raised _ => snd m = []
  end.

(** A part of the script that never calls [st.stop()]. *)
Definition never_stops {A} (m : Script A) : Prop := fst m <> Stopped.

(** ** The specification's reading of line 108

    The specification asks for the unknowns to be the constants the
    reconstruction introduced.  These two definitions follow its words,
    for comparison with [unknowns] and [solve_constants] above. *)

Section SpecReading.

Context {L : PyLibs}.

Local Open Scope script_scope.

(** One constant per integration performed. *)
Definition introduced_constants (fdoubleprime : option Expr) : list Expr :=
  match fdoubleprime with
  | Some _ => [C1; C2]
  | None => [C1]
  end.

Definition solve_constants_spec (fdoubleprime : option Expr)
  (f_expr fprime_expr : Expr) (equations : list Expr) : Script (Expr * Expr) :=
  constants <- call (solve_dict equations (introduced_constants fdoubleprime)) ;;
  match constants with
  | sol :: _ => ret (subs_dict f_expr sol, subs_dict fprime_expr sol)
  | [] => ret (f_expr, fprime_expr)
  end.

End SpecReading.

(** ** A model of the libraries: polynomial expressions over the rationals

    SymPy, NumPy and Python's [float] are not part of the repository.  To
    run the script on concrete inputs the interface is instantiated with a
    model of the fragment the examples need: expressions built from
    numbers, symbols, [+], [-], [*] and [**] with a literal natural
    exponent; numbers are exact rationals (SymPy's [Integer], [Rational]
    and [Float] alike, and Python's floats).  Equations outside the
    fragment are answered with an exception of class [OutsideModel]; text
    outside it is refused as malformed text is. *)

Module Model.

Local Open Scope Q_scope.

(** A symbol: its name and whether it was made with [real=True]. *)
Definition symbol : Type := (string * bool)%type.

Definition symbol_eqb (a b : symbol) : bool :=
  String.eqb (fst a) (fst b) && Bool.eqb (snd a) (snd b).

Definition symbol_ltb (a b : symbol) : bool :=
  match String.compare (fst a) (fst b) with
  | Lt => true
  | Eq => negb (snd a) && snd b
  | Gt => false
  end.

Inductive expr : Type :=
| ENum (q : Q)
| ESym (s : symbol)
| EAdd (a b : expr)
| EMul (a b : expr)
| EPow (a : expr) (n : nat).

Definition q_eqb (a b : Q) : bool :=
  Z.eqb (Qnum a) (Qnum b) && Pos.eqb (Qden a) (Qden b).

Fixpoint expr_eqb (a b : expr) : bool :=
  match a, b with
  | ENum p, ENum q => q_eqb p q
  | ESym s, ESym t => symbol_eqb s t
  | EAdd a1 a2, EAdd b1 b2 => expr_eqb a1 b1 && expr_eqb a2 b2
  | EMul a1 a2, EMul b1 b2 => expr_eqb a1 b1 && expr_eqb a2 b2
  | EPow a1 n, EPow b1 m => expr_eqb a1 b1 && Nat.eqb n m
  | _, _ => false
  end.

(** The script's three symbols. *)
Definition sx : symbol := ("x", false).
Definition sC1 : symbol := ("C1", false).
Definition sC2 : symbol := ("C2", false).

(** The symbols an expression mentions, in order of appearance. *)
Fixpoint vars (e : expr) : list symbol :=
  match e with
  | ENum _ => []
  | ESym s => [s]
  | EAdd a b | EMul a b => vars a ++ vars b
  | EPow a _ => vars a
  end.

(** *** Values *)

Fixpoint qpow (q : Q) (n : nat) : Q :=
  match n with
  | O => 1
  | S n' => q * qpow q n'
  end.

Definition valuation : Type := symbol -> Q.

Fixpoint eval (rho : valuation) (e : expr) : Q :=
  match e with
  | ENum q => q
  | ESym s => rho s
  | EAdd a b => eval rho a + eval rho b
  | EMul a b => eval rho a * eval rho b
  | EPow a n => qpow (eval rho a) n
  end.

(** *** Expanded polynomials

    A monomial is a product of powers of symbols, a polynomial a list of
    monomials with their coefficients, kept sorted and without zero
    coefficients. *)

Definition mono : Type := list (symbol * nat).
Definition poly : Type := list (mono * Q).

Fixpoint minsert (s : symbol) (k : nat) (m : mono) : mono :=
  match m with
  | [] => [(s, k)]
  | (s', k') :: m' =>
      if symbol_eqb s s' then (s', (k + k')%nat) :: m'
      else if symbol_ltb s s' then (s, k) :: m
      else (s', k') :: minsert s k m'
  end.

Definition mmul (a b : mono) : mono :=
  fold_right (fun sk acc => minsert (fst sk) (snd sk) acc) b a.

Fixpoint mono_eqb (a b : mono) : bool :=
  match a, b with
  | [], [] => true
  | (s, k) :: a', (t, j) :: b' => symbol_eqb s t && Nat.eqb k j && mono_eqb a' b'
  | _, _ => false
  end.

Fixpoint mono_ltb (a b : mono) : bool :=
  match a, b with
  | [], [] => false
  | [], _ :: _ => true
  | _ :: _, [] => false
  | (s, k) :: a', (t, j) :: b' =>
      if symbol_eqb s t then
        if Nat.eqb k j then mono_ltb a' b' else Nat.ltb k j
      else symbol_ltb s t
  end.

(** [p + c * m], largest monomial first. *)
Fixpoint pinsert (m : mono) (c : Q) (p : poly) : poly :=
  match p with
  | [] => if Qeq_bool c 0 then [] else [(m, Qred c)]
  | (m', c') :: p' =>
      if mono_eqb m m' then
        if Qeq_bool (c + c') 0 then p' else (m', Qred (c + c')) :: p'
      else if mono_ltb m' m then
        if Qeq_bool c 0 then p else (m, Qred c) :: p
      else (m', c') :: pinsert m c p'
  end.

Definition padd (p q : poly) : poly :=
  fold_right (fun t acc => pinsert (fst t) (snd t) acc) q p.

Definition pscale (m : mono) (c : Q) (q : poly) : poly :=
  fold_right (fun t acc => pinsert (mmul m (fst t)) (c * snd t) acc) [] q.

Definition pmul (p q : poly) : poly :=
  fold_right (fun t acc => padd (pscale (fst t) (snd t) q) acc) [] p.

Definition pconst (c : Q) : poly := pinsert [] c [].

Definition pvar (s : symbol) : poly := [([(s, 1%nat)], 1)].

Fixpoint ppow (p : poly) (n : nat) : poly :=
  match n with
  | O => pconst 1
  | S n' => pmul p (ppow p n')
  end.

(** The expansion of an expression. *)
Fixpoint norm (e : expr) : poly :=
  match e with
  | ENum q => pconst q
  | ESym s => pvar s
  | EAdd a b => padd (norm a) (norm b)
  | EMul a b => pmul (norm a) (norm b)
  | EPow a n => ppow (norm a) n
  end.



(** The expression of an expanded polynomial: a sum of terms, each a
    coefficient times powers of symbols. *)
Fixpoint emit_mono (m : mono) : option expr :=
  match m with
  | [] => None
  | (s, k) :: m' =>
      let b := if Nat.eqb k 1 then ESym s else EPow (ESym s) k in
      match emit_mono m' with
      | None => Some b
      | Some r => Some (EMul b r)
      end
  end.

Definition emit_term (t : mono * Q) : expr :=
  match emit_mono (fst t) with
  | None => ENum (snd t)
  | Some e => if q_eqb (snd t) 1 then e else EMul (ENum (snd t)) e
  end.

Fixpoint emit (p : poly) : expr :=
  match p with
  | [] => ENum 0
  | t :: p' =>
      match p' with
      | [] => emit_term t
      | _ :: _ => EAdd (emit_term t) (emit p')
      end
  end.

(** *** Automatic evaluation

    SymPy evaluates an expression when it is built: sums and products of
    expanded terms are collected and a number is distributed over a sum,
    while a product of sums and a power of a sum are kept as written. *)

Definition expanded (e : expr) : bool := expr_eqb e (emit (norm e)).

Definition single_term (e : expr) : bool := (length (norm e) <=? 1)%nat.

Definition is_number (e : expr) : bool :=
  match e with
  | ENum _ => true
  | _ => false
  end.

(** One node whose arguments are already evaluated. *)
Definition auto (e : expr) : expr :=
  match e with
  | ENum q => ENum (Qred q)
  | ESym _ => e
  | EAdd a b => if expanded a && expanded b then emit (norm e) else e
  | EMul a b =>
      if expanded a && expanded b
         && (is_number a || is_number b || (single_term a && single_term b))
      then emit (norm e) else e
  | EPow a n =>
      if expanded a && single_term a then emit (norm e)
      else match n with
           | O => ENum 1
           | S O => a
           | _ => e
           end
  end.

Fixpoint canon (e : expr) : expr :=
  match e with
  | ENum _ | ESym _ => auto e
  | EAdd a b => auto (EAdd (canon a) (canon b))
  | EMul a b => auto (EMul (canon a) (canon b))
  | EPow a n => auto (EPow (canon a) n)
  end.

Definition add (a b : expr) : expr := auto (EAdd a b).

Definition neg (a : expr) : expr := auto (EMul (ENum (-1)) a).

Definition sub (a b : expr) : expr := auto (EAdd a (neg b)).

(** [e.subs(s, v)]: the expression is rebuilt bottom-up. *)
Fixpoint replace (s : symbol) (v : expr) (e : expr) : expr :=
  match e with
  | ENum _ => e
  | ESym t => if symbol_eqb s t then v else e
  | EAdd a b => auto (EAdd (replace s v a) (replace s v b))
  | EMul a b => auto (EMul (replace s v a) (replace s v b))
  | EPow a n => auto (EPow (replace s v a) n)
  end.

Definition subs (e old new : expr) : expr :=
  match old with
  | ESym s => replace s new e
  | _ => e
  end.

Definition solution : Type := list (symbol * expr).

Definition subs_dict (e : expr) (d : solution) : expr :=
  fold_left (fun acc sv => replace (fst sv) (snd sv) acc) d e.

(** *** Calculus on expanded polynomials *)

Definition qnat (n : nat) : Q := inject_Z (Z.of_nat n).

(** The total exponent of [s] in a monomial. *)
Fixpoint mdeg (s : symbol) (m : mono) : nat :=
  match m with
  | [] => O
  | (t, k) :: m' => ((if symbol_eqb s t then k else O) + mdeg s m')%nat
  end.




(** Term by term: [c * m] goes to [c / n * (s * m)], where [n] is the
    exponent of [s] in [s * m]. *)
Definition pintegrate (s : symbol) (p : poly) : poly :=
  fold_right
    (fun t acc =>
       let m1 := minsert s 1 (fst t) in
       pinsert m1 (snd t / qnat (mdeg s m1)) acc)
    [] p.

(** [sp.integrate(e, v)]: a polynomial integrand is integrated through
    its expanded form, and the antiderivative comes back expanded. *)
Definition integrate (e v : expr) : Res expr :=
  match v with
  | ESym s => inr (emit (pintegrate s (norm e)))
  | _ => inl (Exception "ValueError" "Invalid limits given")
  end.


(** *** Linear solving

    An equation [e = 0] of degree one in the unknowns, with numeric
    coefficients, is a row: the coefficients of the unknowns in order, and
    the part free of them. *)

Definition row : Type := (list Q * poly)%type.

Definition mentions (syms : list symbol) (m : mono) : bool :=
  existsb (fun sk => existsb (symbol_eqb (fst sk)) syms) m.

Definition coeff_of (s : symbol) (p : poly) : Q :=
  fold_right
    (fun t acc => if mono_eqb (fst t) [(s, 1%nat)] then Qred (snd t + acc) else acc)
    0 p.

Definition linear_in (syms : list symbol) (p : poly) : bool :=
  forallb
    (fun t => negb (mentions syms (fst t))
              || existsb (fun s => mono_eqb (fst t) [(s, 1%nat)]) syms)
    p.

Definition to_row (syms : list symbol) (p : poly) : option row :=
  if linear_in syms p then
    Some (map (fun s => coeff_of s p) syms,
          filter (fun t => negb (mentions syms (fst t))) p)
  else None.

Definition row_head (r : row) : Q := hd 0 (fst r).

Definition row_tail (r : row) : row := (tl (fst r), snd r).

Definition row_scale (k : Q) (r : row) : row :=
  (map (fun c => Qred (k * c)) (fst r), pscale [] k (snd r)).

Fixpoint zip_add (a b : list Q) : list Q :=
  match a, b with
  | c :: a', d :: b' => Qred (c + d) :: zip_add a' b'
  | _, _ => []
  end.

Definition row_add (r1 r2 : row) : row :=
  (zip_add (fst r1) (fst r2), padd (snd r1) (snd r2)).

(** The first row with a non-zero leading coefficient, and the others. *)
Fixpoint pick (rows : list row) : option (row * list row) :=
  match rows with
  | [] => None
  | r :: rs =>
      if Qeq_bool (row_head r) 0 then
        match pick rs with
        | Some (p, others) => Some (p, r :: others)
        | None => None
        end
      else Some (r, rs)
  end.

Definition value_of (s : symbol) (sigma : list (symbol * poly)) : poly :=
  match find (fun sv => symbol_eqb s (fst sv)) sigma with
  | Some sv => snd sv
  | None => pvar s
  end.

Fixpoint back_subst (syms : list symbol) (cs : list Q)
  (sigma : list (symbol * poly)) (acc : poly) : poly :=
  match syms, cs with
  | s :: syms', c :: cs' =>
      back_subst syms' cs' sigma (padd acc (pmul (pconst (- c)) (value_of s sigma)))
  | _, _ => acc
  end.

(** Gaussian elimination, one unknown at a time.  [None]: the system is
    inconsistent.  An unknown no row determines is left out of the result
    and stays a symbol in the values of the others. *)
Fixpoint gauss (syms : list symbol) (rows : list row)
  : option (list (symbol * poly)) :=
  match syms with
  | [] =>
      if forallb (fun r => match snd r with [] => true | _ :: _ => false end) rows
      then Some [] else None
  | s :: syms' =>
      match pick rows with
      | None => gauss syms' (map row_tail rows)
      | Some (p, others) =>
          let p1 := row_scale (/ row_head p) p in
          let others' :=
            map (fun r => row_add r (row_scale (- row_head r) p1)) others in
          match gauss syms' (map row_tail others') with
          | None => None
          | Some sigma =>
              let value :=
                back_subst syms' (tl (fst p1)) sigma (pscale [] (- (1)) (snd p1)) in
              Some ((s, value) :: sigma)
          end
      end
  end.

Fixpoint as_symbols (es : list expr) : option (list symbol) :=
  match es with
  | [] => Some []
  | ESym s :: es' =>
      match as_symbols es' with
      | Some ss => Some (s :: ss)
      | None => None
      end
  | _ :: _ => None
  end.

Fixpoint to_rows (syms : list symbol) (eqs : list expr) : option (list row) :=
  match eqs with
  | [] => Some []
  | e :: eqs' =>
      match to_row syms (norm e), to_rows syms eqs' with
      | Some r, Some rs => Some (r :: rs)
      | _, _ => None
      end
  end.

Definition outside_model {A} (what : string) : Res A :=
  inl (Exception "OutsideModel" what).

(** [sp.solve(equations, syms, dict=True)]. *)
Definition solve_dict (eqs syms : list expr) : Res (list solution) :=
  match as_symbols syms with
  | None => outside_model "solve: unknowns that are not symbols"
  | Some ss =>
      match to_rows ss eqs with
      | None => outside_model "solve: an equation that is not linear in the unknowns"
      | Some rows =>
          match gauss ss rows with
          | None | Some [] => inr []
          | Some sigma => inr [map (fun sv => (fst sv, emit (snd sv))) sigma]
          end
      end
  end.

(** [sp.solve(e, v)]. *)
Definition solve (e v : expr) : Res (list expr) :=
  match v with
  | ESym s =>
      match to_row [s] (norm e) with
      | None => outside_model "solve: an equation that is not linear in the unknown"
      | Some r =>
          match gauss [s] [r] with
          | Some ((_, value) :: _) => inr [emit value]
          | _ => inr []
          end
      end
  | _ => outside_model "solve: an unknown that is not a symbol"
  end.

(** *** Numbers out of expressions *)

(** [v.is_real]: known when every symbol of [v] was declared real. *)
Definition is_real (e : expr) : option bool :=
  if forallb (fun s => snd s) (vars e) then Some true else None.

Definition nowhere : valuation := fun _ => 0.

(** [float(v)]. *)
Definition float_of_expr (e : expr) : Res Q :=
  match vars e with
  | [] => inr (Qred (eval nowhere e))
  | _ :: _ => inl (Exception "TypeError" "Cannot convert expression to float")
  end.

(** NumPy values: a scalar, or a one-dimensional array. *)
Inductive array : Type :=
| Scalar (v : Q)
| Vector (vs : list Q).

Definition point (s : symbol) (a : Q) : valuation :=
  fun t => if symbol_eqb s t then a else 0.

(** The function [lambdify] generates: its body is the printed
    expression, so a symbol other than the argument is a free name, looked
    up (and not found) when the function is called; an expression without
    the argument returns a scalar whatever the input. *)
Definition generated (s : symbol) (e : expr) (xs : array) : Res array :=
  match filter (fun t => negb (symbol_eqb s t)) (vars e) with
  | t :: _ => inl (Exception "NameError" ("name '" ++ fst t ++ "' is not defined"))
  | [] =>
      inr match xs with
          | Vector l =>
              if existsb (symbol_eqb s) (vars e)
              then Vector (map (fun a => Qred (eval (point s a) e)) l)
              else Scalar (Qred (eval nowhere e))
          | Scalar a => Scalar (Qred (eval (point s a) e))
          end
  end.

(** [sp.lambdify(v, e, "numpy")]: code generation inspects nothing. *)
Definition lambdify (v e : expr) : Res (array -> Res array) :=
  match v with
  | ESym s => inr (generated s e)
  | _ => outside_model "lambdify: an argument that is not a symbol"
  end.

(** *** [np.linspace]

    NumPy computes [step = (stop - start) / (num - 1)], the samples
    [i * step + start], and then stores [stop] in the last one. *)

Definition set_last (l : list Q) (v : Q) : list Q :=
  match l with
  | [] => []
  | _ :: _ => removelast l ++ [v]
  end.

Definition linspace_list (start stop : Q) (num : nat) : list Q :=
  match num with
  | O => []
  | S O => [start]
  | S d =>
      let step := (stop - start) / qnat d in
      set_last
        (map (fun i => qnat i * step + start) (seq 0 num))
        stop
  end.

Definition linspace (start stop : Q) (num : nat) : array :=
  Vector (linspace_list start stop num).

(** *** Derivatives by dual numbers

    The value of an expression together with its derivative along one
    symbol: arithmetic on pairs [(a, a')] with the product rule built in.
    This is the meaning [pdiff] and [pintegrate] are checked against. *)

Definition dual : Type := (Q * Q)%type.

Definition deq (a b : dual) : Prop := fst a == fst b /\ snd a == snd b.

Definition dconst (q : Q) : dual := (q, 0).

Definition dadd (a b : dual) : dual := (fst a + fst b, snd a + snd b).

Definition dmul (a b : dual) : dual :=
  (fst a * fst b, fst a * snd b + snd a * fst b).

Fixpoint dpow (a : dual) (n : nat) : dual :=
  match n with
  | O => dconst 1
  | S n' => dmul a (dpow a n')
  end.

Fixpoint deval (eta : symbol -> dual) (e : expr) : dual :=
  match e with
  | ENum q => dconst q
  | ESym s => eta s
  | EAdd a b => dadd (deval eta a) (deval eta b)
  | EMul a b => dmul (deval eta a) (deval eta b)
  | EPow a n => dpow (deval eta a) n
  end.

Definition deval_mono (eta : symbol -> dual) (m : mono) : dual :=
  fold_right (fun sk acc => dmul (dpow (eta (fst sk)) (snd sk)) acc) (dconst 1) m.

Definition deval_poly (eta : symbol -> dual) (p : poly) : dual :=
  fold_right
    (fun t acc => dadd (dmul (dconst (snd t)) (deval_mono eta (fst t))) acc)
    (dconst 0) p.



(** *** Text: [float] and [sympify] *)

Definition is_digit (c : ascii) : bool :=
  let n := nat_of_ascii c in ((48 <=? n) && (n <=? 57))%nat.

Definition is_alpha (c : ascii) : bool :=
  let n := nat_of_ascii c in
  (((65 <=? n) && (n <=? 90)) || ((97 <=? n) && (n <=? 122)) || (n =? 95))%nat.

Fixpoint take_while (p : ascii -> bool) (s : string) : string * string :=
  match s with
  | EmptyString => (EmptyString, EmptyString)
  | String c s' =>
      if p c then let (a, b) := take_while p s' in (String c a, b)
      else (EmptyString, s)
  end.

Fixpoint digits_value (s : string) (acc : Z) : Z :=
  match s with
  | EmptyString => acc
  | String c s' => digits_value s' (acc * 10 + Z.of_nat (nat_of_ascii c - 48))%Z
  end.

(** A decimal literal without sign or exponent at the head of [s]:
    digits, optionally a point and more digits, at least one digit. *)
Definition unsigned_literal (s : string) : option (Q * string) :=
  let (ip, r1) := take_while is_digit s in
  let (fp, r2) :=
    match r1 with
    | String "."%char r => take_while is_digit r
    | _ => (EmptyString, r1)
    end in
  match (ip ++ fp)%string with
  | EmptyString => None
  | ds =>
      Some (Qred (digits_value ds 0 # Z.to_pos (10 ^ Z.of_nat (String.length fp))), r2)
  end.

(** [float(s)] for plain decimal text; blanks around it are ignored.  The
    exponent, [inf], [nan] and underscore forms are outside the model and
    refused like any other text. *)
Definition float_of_str (s : string) : Res Q :=
  let t := strip s in
  let (sign, body) :=
    match t with
    | String "-"%char r => (- (1), r)
    | String "+"%char r => (1, r)
    | _ => (1, t)
    end in
  match unsigned_literal body with
  | Some (q, EmptyString) => inr (Qred (sign * q))
  | _ =>
      inl (Exception "ValueError"
             ("could not convert string to float: '" ++ s ++ "'"))
  end.

Inductive token : Type :=
| TNum (q : Q)
| TName (s : string)
| TQuoted (s : string)
| TPlus
| TMinus
| TStar
| TPow
| TLPar
| TRPar
| TComma
| TEq.

Definition quote : ascii := "'"%char.

Fixpoint tokenize (fuel : nat) (s : string) : option (list token) :=
  match fuel with
  | O => None
  | S n =>
      let push t r :=
        match tokenize n r with
        | Some ts => Some (t :: ts)
        | None => None
        end in
      match s with
      | EmptyString => Some []
      | String c r =>
          if py_isspace c then tokenize n r
          else if is_digit c || Ascii.eqb c "."%char then
            match unsigned_literal s with
            | Some (q, r') => push (TNum q) r'
            | None => None
            end
          else if is_alpha c then
            let (name, r') := take_while (fun d => is_alpha d || is_digit d) s in
            push (TName name) r'
          else if Ascii.eqb c quote then
            let (body, r') := take_while (fun d => negb (Ascii.eqb d quote)) r in
            match r' with
            | String _ r'' => push (TQuoted body) r''
            | EmptyString => None
            end
          else if Ascii.eqb c "*"%char then
            match r with
            | String "*"%char r' => push TPow r'
            | _ => push TStar r
            end
          else if Ascii.eqb c "^"%char then push TPow r
          else if Ascii.eqb c "+"%char then push TPlus r
          else if Ascii.eqb c "-"%char then push TMinus r
          else if Ascii.eqb c "("%char then push TLPar r
          else if Ascii.eqb c ")"%char then push TRPar r
          else if Ascii.eqb c ","%char then push TComma r
          else if Ascii.eqb c "="%char then push TEq r
          else None
      end
  end.

(** A literal natural exponent. *)
Definition as_exponent (e : expr) : option nat :=
  match e with
  | ENum q =>
      if Pos.eqb (Qden q) 1 && Z.leb 0 (Qnum q) then Some (Z.to_nat (Qnum q))
      else None
  | _ => None
  end.

(** Names SymPy's namespace gives a meaning of its own. *)
Definition reserved (name : string) : bool :=
  existsb (String.eqb name)
    ["E"; "I"; "N"; "O"; "Q"; "S"; "pi"; "oo"; "zoo"; "nan";
     "True"; "False"; "None"; "Symbol"; "lambda"].

(** [Symbol('name')] and [Symbol('name', real=True)] after the opening
    parenthesis. *)
Definition symbol_call (ts : list token) : option (expr * list token) :=
  match ts with
  | TQuoted s :: TRPar :: r => Some (ESym (s, false), r)
  | TQuoted s :: TComma :: TName k :: TEq :: TName v :: TRPar :: r =>
      if String.eqb k "real" && String.eqb v "True" then Some (ESym (s, true), r)
      else None
  | _ => None
  end.

(** Recursive descent with Python's precedences: [**] binds tighter than
    unary minus on its left and is right-associative, [*] tighter than
    [+] and [-]. *)
Fixpoint parse_expr (fuel : nat) (ts : list token) : option (expr * list token) :=
  match fuel with
  | O => None
  | S n =>
      match parse_term n ts with
      | Some (t, r) => parse_expr_rest n t r
      | None => None
      end
  end
with parse_expr_rest (fuel : nat) (acc : expr) (ts : list token)
  : option (expr * list token) :=
  match fuel with
  | O => None
  | S n =>
      match ts with
      | TPlus :: r =>
          match parse_term n r with
          | Some (t, r') => parse_expr_rest n (EAdd acc t) r'
          | None => None
          end
      | TMinus :: r =>
          match parse_term n r with
          | Some (t, r') => parse_expr_rest n (EAdd acc (EMul (ENum (- (1))) t)) r'
          | None => None
          end
      | _ => Some (acc, ts)
      end
  end
with parse_term (fuel : nat) (ts : list token) : option (expr * list token) :=
  match fuel with
  | O => None
  | S n =>
      match parse_factor n ts with
      | Some (f, r) => parse_term_rest n f r
      | None => None
      end
  end
with parse_term_rest (fuel : nat) (acc : expr) (ts : list token)
  : option (expr * list token) :=
  match fuel with
  | O => None
  | S n =>
      match ts with
      | TStar :: r =>
          match parse_factor n r with
          | Some (f, r') => parse_term_rest n (EMul acc f) r'
          | None => None
          end
      | _ => Some (acc, ts)
      end
  end
with parse_factor (fuel : nat) (ts : list token) : option (expr * list token) :=
  match fuel with
  | O => None
  | S n =>
      match ts with
      | TMinus :: r =>
          match parse_factor n r with
          | Some (f, r') => Some (EMul (ENum (- (1))) f, r')
          | None => None
          end
      | TPlus :: r => parse_factor n r
      | _ => parse_power n ts
      end
  end
with parse_power (fuel : nat) (ts : list token) : option (expr * list token) :=
  match fuel with
  | O => None
  | S n =>
      match parse_atom n ts with
      | Some (a, TPow :: r) =>
          match parse_factor n r with
          | Some (f, r') =>
              match as_exponent f with
              | Some k => Some (EPow a k, r')
              | None => None
              end
          | None => None
          end
      | other => other
      end
  end
with parse_atom (fuel : nat) (ts : list token) : option (expr * list token) :=
  match fuel with
  | O => None
  | S n =>
      match ts with
      | TNum q :: r => Some (ENum q, r)
      | TName name :: r =>
          if String.eqb name "Symbol" then
            match r with
            | TLPar :: r' => symbol_call r'
            | _ => None
            end
          else if reserved name then None
          else Some (ESym (name, false), r)
      | TLPar :: r =>
          match parse_expr n r with
          | Some (e, TRPar :: r') => Some (e, r')
          | _ => None
          end
      | _ => None
      end
  end.

(** [sp.sympify(text)]: the parsed expression, evaluated as SymPy
    evaluates what it builds.  The parser cannot tell malformed text from
    text outside the fragment and raises [SympifyError] for both. *)
Definition sympify (text : string) : Res expr :=
  let bad := inl (Exception "SympifyError"
                    ("Sympify of expression 'could not parse '" ++ text
                     ++ "'' failed")) in
  match tokenize (S (String.length text)) text with
  | None => bad
  | Some ts =>
      match parse_expr (8 * S (List.length ts)) ts with
      | Some (e, []) => inr (canon e)
      | _ => bad
      end
  end.

(** *** Typesetting *)

Definition show_Z (z : Z) : string := NilZero.string_of_int (Z.to_int z).

Definition show_nat (n : nat) : string := show_Z (Z.of_nat n).

Definition show_Q (q : Q) : string :=
  if Pos.eqb (Qden q) 1 then show_Z (Qnum q)
  else ("\frac{" ++ show_Z (Qnum q) ++ "}{" ++ show_Z (Zpos (Qden q)) ++ "}")%string.

Definition atomic (e : expr) : bool :=
  match e with
  | ENum q => Z.leb 0 (Qnum q)
  | ESym _ => true
  | _ => false
  end.

Definition parens (s : string) : string := ("\left(" ++ s ++ "\right)")%string.

(** [sp.latex(e)], in outline. *)
Fixpoint latex (e : expr) : string :=
  let wrap a := if atomic a then latex a else parens (latex a) in
  match e with
  | ENum q => show_Q q
  | ESym s => fst s
  | EAdd a b => (latex a ++ " + " ++ latex b)%string
  | EMul a b =>
      ((match a with EAdd _ _ => parens (latex a) | _ => latex a end)
       ++ " "
       ++ (match b with EAdd _ _ => parens (latex b) | _ => latex b end))%string
  | EPow a n => (wrap a ++ "^{" ++ show_nat n ++ "}")%string
  end.

End Model.

(** The model as an instance of the interface. *)
Definition model : PyLibs := {|
  pyfloat := Q;
  ndarray := Model.array;
  float_of_str := Model.float_of_str;
  linspace := Model.linspace;
  Expr := Model.expr;
  Solution := Model.solution;
  symbols := fun name => Model.ESym (name, false);
  sympify := Model.sympify;
  of_float := fun q => Model.ENum (Qred q);
  integrate := Model.integrate;
  expr_add := Model.add;
  expr_sub := Model.sub;
  subs := Model.subs;
  subs_dict := Model.subs_dict;
  solve_dict := Model.solve_dict;
  solve := Model.solve;
  is_real := Model.is_real;
  float_of_expr := Model.float_of_expr;
  lambdify := Model.lambdify;
  latex := Model.latex
|}.

(** The inputs of a run on the model. *)
Definition model_inputs (d s a b c : string) (lo hi : Q) : Inputs Q :=
  Build_Inputs d s a b c lo hi.

(** Whether a run on the model completes, and the page it then shows (the
    empty page stands for the runs that stop or raise). *)
Definition model_completes (i : Inputs Q) : bool :=
  match fst (@run model i) with
  | Done _ => true
  | _ => false
  end.

Definition model_output (i : Inputs Q) : Output Q Model.expr Model.array :=
  match fst (@run model i) with
  | Done o => o
  | _ =>
      {| out_reconstruction :=
           {| fdoubleprime := None;
              f_expr := Model.ENum 0;
              fprime_expr := Model.ENum 0 |};
         out_x_vals := Model.Vector [];
         out_curves :=
           {| f_vals := Model.Vector [];
              fp_vals := Model.Vector [];
              fpp_vals := None |};
         out_critical_points := [];
         out_inflection_points := [];
         out_formulas := [] |}
  end.

(** * Properties of the script, whatever the libraries do *)

Section PipelineFacts.

Context {L : PyLibs}.

Local Open Scope script_scope.

Lemma bind_done_inv {A B} (m : Script A) (k : A -> Script B) (b : B) (w : list UiEvent) :
  bind m k = (Done b, w) ->
  exists a w1 w2, m = (Done a, w1) /\ k a = (Done b, w2) /\ w = w1 ++ w2.
Proof.
  unfold bind. destruct m as [[a| |e] w1]; try discriminate.
  destruct (k a) as [o w2] eqn:Hk. intros H. inversion H; subst.
  exists a, w1, w2. auto.
Qed.

Lemma bind_done {A B} (m : Script A) (k : A -> Script B) (a : A) (w : list UiEvent) :
  m = (Done a, w) -> bind m k = (fst (k a), w ++ snd (k a)).
Proof.
  intros ->. unfold bind. destruct (k a); reflexivity.
Qed.

Lemma st_error_not_done {A} (msg : string) (a : A) (w : list UiEvent) :
  st_error msg (@st_stop A) <> (Done a, w).
Proof. unfold st_error, st_stop. discriminate. Qed.

(** A successful parse returns what [sympify] returned, and writes
    nothing. *)
Lemma parse_expressions_done (d s : string) (fprime : Expr)
  (fdoubleprime : option Expr) (w : list UiEvent) :
  parse_expressions d s = (Done (fprime, fdoubleprime), w) ->
  w = [] /\ sympify d = inr fprime /\
  match fdoubleprime with
  | Some fpp => truthy (strip s) = true /\ sympify s = inr fpp
  | None => truthy (strip s) = false
  end.
Proof.
  unfold parse_expressions, try_except, rbind, bind, ret.
  destruct (sympify d) as [e|e1]; [intros H; discriminate H|].
  destruct (truthy (strip s)).
  - destruct (sympify s) as [e|e2]; [intros H; discriminate H|].
    intros H. inversion H; subst. auto.
  - intros H. inversion H; subst. auto.
Qed.

(** C1.  For every successfully parsed input the reconstruction is the
    pair of the formulas: without a second derivative, [fprime_expr] is the
    parsed [fprime] itself and [f_expr] is its integral plus [C1]; with
    one, [fprime_expr] is the integral of [fdoubleprime] plus [C1] and
    [f_expr] the integral of that plus [C2].  (The pair is returned as
    [(fprime_expr, f_expr)].) *)
Theorem reconstruct_formulas (d s : string) (fprime : Expr)
  (fdoubleprime : option Expr) (w : list UiEvent) :
  parse_expressions d s = (Done (fprime, fdoubleprime), w) ->
  sympify d = inr fprime /\
  match fdoubleprime with
  | None =>
      forall F, integrate fprime x = inr F ->
        reconstruct fprime fdoubleprime = (Done (fprime, expr_add F C1), [])
  | Some fpp =>
      sympify s = inr fpp /\
      forall G H, integrate fpp x = inr G ->
        integrate (expr_add G C1) x = inr H ->
        reconstruct fprime fdoubleprime
        = (Done (expr_add G C1, expr_add H C2), [])
  end.
Proof.
  intros Hp. apply parse_expressions_done in Hp as (_ & Hd & Hs).
  split; [exact Hd|].
  destruct fdoubleprime as [fpp|].
  - destruct Hs as [_ Hs]. split; [exact Hs|].
    intros G H HG HH. unfold reconstruct, call, bind, ret.
    rewrite HG. cbn. rewrite HH. reflexivity.
  - intros F HF. unfold reconstruct, call, bind, ret. rewrite HF. reflexivity.
Qed.

(** C2, as amended.  The solver is asked for the fixed list [[C1, C2]]
    whether or not a second derivative was given: these are the constants
    the reconstruction introduced when one was, and one more than it
    introduced when none was.  The first solution set is used when there is
    one; with none the two expressions are returned as they are, nothing
    written and nothing raised. *)
Theorem solve_constants_policy (f_expr fprime_expr : Expr) (equations : list Expr) :
  solve_constants f_expr fprime_expr equations
  = match solve_dict equations [C1; C2] with
    | inl e => (Raised e, [])
    | inr [] => (Done (f_expr, fprime_expr), [])
    | inr (sol :: _) =>
        (Done (subs_dict f_expr sol, subs_dict fprime_expr sol), [])
    end
  /\ (forall fpp,
        solve_constants_spec (Some fpp) f_expr fprime_expr equations
        = solve_constants f_expr fprime_expr equations).
Proof.
  split.
  - unfold solve_constants, unknowns, call, bind, ret.
    destruct (solve_dict equations [C1; C2]) as [e|[|sol rest]]; reflexivity.
  - intros fpp. reflexivity.
Qed.

(** What the first four sections of a completed run went through. *)
Lemma reconstruction_done_inv (i : Inputs pyfloat) (r : Reconstruction Expr)
  (w : list UiEvent) :
  reconstruction i = (Done r, w) ->
  exists fprime fp0 f0 equations w3,
    parse_expressions (derivative_str i) (second_derivative_str i)
    = (Done (fprime, fdoubleprime r), []) /\
    reconstruct fprime (fdoubleprime r) = (Done (fp0, f0), []) /\
    initial_conditions f0 fp0 (ic_fx i) (ic_fpx i) = (Done equations, w3) /\
    solve_constants f0 fp0 equations = (Done (f_expr r, fprime_expr r), []).
Proof.
  unfold reconstruction. intros H.
  apply bind_done_inv in H as ([fprime fdp] & w1 & w1' & Hp & H & ->).
  apply bind_done_inv in H as ([fp0 f0] & w2 & w2' & Hr & H & ->).
  apply bind_done_inv in H as (eqs & w3 & w3' & Hi & H & ->).
  apply bind_done_inv in H as ([f1 fp1] & w4 & w4' & Hs & H & ->).
  unfold ret in H. inversion H; subst; cbn.
  pose proof (parse_expressions_done _ _ _ _ _ Hp) as (-> & _ & _).
  assert (w2 = []) as ->.
  { revert Hr. unfold reconstruct, call, bind, ret.
    destruct fdp as [fpp|].
    - destruct (integrate fpp x); [discriminate|].
      destruct (integrate _ x); [discriminate|]. intros E; inversion E; reflexivity.
    - destruct (integrate fprime x); [discriminate|]. intros E; inversion E; reflexivity. }
  assert (w4 = []) as ->.
  { revert Hs. unfold solve_constants, call, bind, ret.
    destruct (solve_dict eqs unknowns) as [e|[|sol rest]]; [discriminate| |];
      intros E; inversion E; reflexivity. }
  exists fprime, fp0, f0, eqs, w3. auto.
Qed.

(** C4.  In every run that gets past the solver, either one solution set
    (the first the solver returned) was substituted into both [f_expr] and
    [fprime_expr], or the solver returned none and both are exactly the
    reconstructed expressions; no run has one substituted and the other
    not. *)
Theorem substitution_atomic (i : Inputs pyfloat) (r : Reconstruction Expr)
  (w : list UiEvent) :
  reconstruction i = (Done r, w) ->
  exists fprime fp0 f0 equations,
    reconstruct fprime (fdoubleprime r) = (Done (fp0, f0), []) /\
    ((exists sol rest,
        solve_dict equations unknowns = inr (sol :: rest) /\
        f_expr r = subs_dict f0 sol /\
        fprime_expr r = subs_dict fp0 sol)
     \/ (solve_dict equations unknowns = inr [] /\
         f_expr r = f0 /\ fprime_expr r = fp0)).
Proof.
  intros H. apply reconstruction_done_inv in H
    as (fprime & fp0 & f0 & eqs & w3 & _ & Hr & _ & Hs).
  exists fprime, fp0, f0, eqs. split; [exact Hr|].
  revert Hs. unfold solve_constants, call, bind, ret.
  destruct (solve_dict eqs unknowns) as [e|[|sol rest]]; [discriminate| |];
    intros E; inversion E; subst.
  - right. auto.
  - left. exists sol, rest. auto.
Qed.

Lemma bind_unfold {A B} (m : Script A) (k : A -> Script B) :
  bind m k
  = match fst m with
    | Done a => (fst (k a), snd m ++ snd (k a))
    | Stopped => (Stopped, snd m)
    | Raised e => (Raised e, snd m)
    end.
Proof.
  unfold bind. destruct m as [[a| |e] w]; cbn; try reflexivity.
  destruct (k a); reflexivity.
Qed.

Lemma call_writes_nothing {A} (r : Res A) : snd (call r) = [].
Proof. destruct r; reflexivity. Qed.

(** The inflection points in closed form: the section never stops the
    script and writes nothing. *)
Lemma find_inflection_points_cases (fdp : option Expr) :
  find_inflection_points fdp
  = (Done match fdp with
          | None => []
          | Some fpp =>
              match solve fpp x with
              | inl _ => []
              | inr sols =>
                  match real_floats sols with
                  | inr fs => map PyFloat fs
                  | inl _ => map PyExpr sols
                  end
              end
          end, []).
Proof.
  unfold find_inflection_points, ret.
  destruct fdp as [fpp|]; [|reflexivity].
  destruct (solve fpp x) as [e|sols]; [reflexivity|].
  destruct (real_floats sols); reflexivity.
Qed.

(** When the conversion succeeds, the floats are those of the solutions
    whose [is_real] is [True], in order. *)
Lemma real_floats_filter (sols : list Expr) (fs : list pyfloat) :
  real_floats sols = inr fs ->
  Forall2 (fun v f => float_of_expr v = inr f)
    (filter (fun v => match is_real v with Some true => true | _ => false end) sols)
    fs.
Proof.
  revert fs. induction sols as [|v sols IH]; intros fs; cbn.
  - intros H; inversion H. constructor.
  - destruct (is_real v) as [[|]|]; try (intros H; apply IH; exact H).
    unfold rbind. destruct (float_of_expr v) as [e|f] eqn:Hf; [discriminate|].
    destruct (real_floats sols) as [e|fs']; [discriminate|].
    intros H; inversion H; subst. constructor; [exact Hf|]. apply IH. reflexivity.
Qed.

(** A failure of the solve itself leaves the list empty; a failure of
    the conversion after a successful solve leaves it holding the
    expressions the solve returned. *)
Lemma inflection_points_after_failure (fpp : Expr) :
  (forall e, solve fpp x = inl e ->
     find_inflection_points (Some fpp) = (Done [], []))
  /\ (forall sols e, solve fpp x = inr sols -> real_floats sols = inl e ->
        find_inflection_points (Some fpp) = (Done (map PyExpr sols), [])).
Proof.
  split.
  - intros e H. rewrite find_inflection_points_cases, H. reflexivity.
  - intros sols e H1 H2. rewrite find_inflection_points_cases, H1, H2. reflexivity.
Qed.

(** The section "Numerical lambdas" adds no check of its own: it returns
    what [lambdify] returns, and an exception of the first callable on the
    grid surfaces in the plotting section. *)
Lemma numerical_lambdas_no_check (r : Reconstruction Expr)
  (g1 g2 : ndarray -> Res ndarray) :
  lambdify x (f_expr r) = inr g1 ->
  lambdify x (fprime_expr r) = inr g2 ->
  fdoubleprime r = None ->
  numerical_lambdas r
  = (Done {| f_num := g1; fp_num := g2; fpp_num := None |}, [])
  /\ forall xs e, g1 xs = inl e ->
       plotting {| f_num := g1; fp_num := g2; fpp_num := None |} xs
       = (Raised e, []).
Proof.
  intros H1 H2 H3. split.
  - unfold numerical_lambdas, call, bind, ret. rewrite H1, H2, H3. reflexivity.
  - intros xs e He. unfold plotting, call, bind. cbn [f_num]. rewrite He.
    reflexivity.
Qed.

Lemma plotting_writes_nothing (lam : Lambdas ndarray) (xs : ndarray) :
  snd (plotting lam xs) = [].
Proof.
  unfold plotting, call, bind, ret.
  destruct (f_num lam xs); [reflexivity|].
  destruct (fp_num lam xs); [reflexivity|].
  destruct (fpp_num lam) as [g|]; [|reflexivity].
  destruct (g xs); reflexivity.
Qed.

Lemma after_critical_points_writes_nothing i r lam cps :
  snd (after_critical_points i r lam cps) = [].
Proof.
  unfold after_critical_points.
  rewrite find_inflection_points_cases. rewrite bind_unfold. cbn [fst snd].
  rewrite bind_unfold. cbn [app].
  pose proof (plotting_writes_nothing lam (x_vals (xmin i) (xmax i))) as Hp.
  destruct (plotting lam (x_vals (xmin i) (xmax i))) as [[c| |e] w];
    cbn in *; subst; reflexivity.
Qed.


Lemma evaluation_unfold (i : Inputs pyfloat) (r : Reconstruction Expr) :
  evaluation i r
  = (lam <- numerical_lambdas r ;;
     critical_points <- parse_critical_points (critical_points_str i) ;;
     after_critical_points i r lam critical_points).
Proof. reflexivity. Qed.





End PipelineFacts.

(** * Properties of the model *)

(** Expansion, printing back and automatic evaluation keep the value of
    an expression and of its derivatives; [pdiff] computes the derivative
    and [pintegrate] an antiderivative.  Values and derivatives are
    compared up to equality of fractions ([==]). *)

Module ModelFacts.

Import Model.

Local Open Scope Q_scope.

Lemma symbol_eqb_eq (s t : symbol) : symbol_eqb s t = true -> s = t.
Proof.
  destruct s as [n1 r1], t as [n2 r2]. unfold symbol_eqb. cbn [fst snd].
  intros H. apply andb_prop in H as [H1 H2].
  apply String.eqb_eq in H1. apply Bool.eqb_prop in H2. congruence.
Qed.


Lemma mono_eqb_eq (a b : mono) : mono_eqb a b = true -> a = b.
Proof.
  revert b. induction a as [|[s k] a IH]; intros [|[t j] b]; cbn; try discriminate.
  - reflexivity.
  - intros H. apply andb_prop in H as [H H3]. apply andb_prop in H as [H1 H2].
    apply symbol_eqb_eq in H1. apply Nat.eqb_eq in H2. apply IH in H3. congruence.
Qed.

Lemma q_eqb_eq (p q : Q) : q_eqb p q = true -> p = q.
Proof.
  destruct p as [a b], q as [c d]. unfold q_eqb. cbn [Qnum Qden].
  intros H. apply andb_prop in H as [H1 H2].
  apply Z.eqb_eq in H1. apply Pos.eqb_eq in H2. congruence.
Qed.

Ltac dsimpl := unfold deq, dadd, dmul, dconst in *; cbn [fst snd] in *.

Lemma deq_refl (a : dual) : deq a a.
Proof. split; reflexivity. Qed.

Lemma deq_trans (a b c : dual) : deq a b -> deq b c -> deq a c.
Proof. intros [H1 H2] [H3 H4]. split; [rewrite H1|rewrite H2]; assumption. Qed.

Lemma deq_sym (a b : dual) : deq a b -> deq b a.
Proof. intros [H1 H2]. split; symmetry; assumption. Qed.

Lemma dmul_proper (a a' b b' : dual) : deq a a' -> deq b b' -> deq (dmul a b) (dmul a' b').
Proof. intros [H1 H2] [H3 H4]. dsimpl. rewrite H1, H2, H3, H4. split; reflexivity. Qed.

Lemma dadd_proper (a a' b b' : dual) : deq a a' -> deq b b' -> deq (dadd a b) (dadd a' b').
Proof. intros [H1 H2] [H3 H4]. dsimpl. rewrite H1, H2, H3, H4. split; reflexivity. Qed.

Lemma dpow_proper (a b : dual) (n : nat) : deq a b -> deq (dpow a n) (dpow b n).
Proof.
  intros H. induction n as [|n IH]; cbn [dpow].
  - apply deq_refl.
  - apply dmul_proper; assumption.
Qed.

Lemma dpow_add (a : dual) (j k : nat) :
  deq (dpow a (j + k)) (dmul (dpow a j) (dpow a k)).
Proof.
  induction j as [|j [I1 I2]]; cbn [dpow Nat.add].
  - dsimpl. split; ring.
  - dsimpl. rewrite I1, I2. split; ring.
Qed.

Lemma deval_minsert (eta : symbol -> dual) (s : symbol) (k : nat) (m : mono) :
  deq (deval_mono eta (minsert s k m)) (dmul (dpow (eta s) k) (deval_mono eta m)).
Proof.
  induction m as [|[t j] m [I1 I2]]; cbn [minsert].
  - apply deq_refl.
  - destruct (symbol_eqb s t) eqn:E.
    + apply symbol_eqb_eq in E. subst t.
      cbn [deval_mono fold_right fst snd]. fold (deval_mono eta m).
      destruct (dpow_add (eta s) k j) as [P1 P2].
      dsimpl. rewrite P1, P2. split; ring.
    + destruct (symbol_ltb s t).
      * apply deq_refl.
      * cbn [deval_mono fold_right fst snd]. fold (deval_mono eta m).
        fold (deval_mono eta (minsert s k m)).
        dsimpl. rewrite I1, I2. split; ring.
Qed.

Lemma deval_mmul (eta : symbol -> dual) (a b : mono) :
  deq (deval_mono eta (mmul a b)) (dmul (deval_mono eta a) (deval_mono eta b)).
Proof.
  induction a as [|[s k] a [I1 I2]]; cbn [mmul fold_right fst snd].
  - cbn [deval_mono fold_right]. dsimpl. split; ring.
  - fold (mmul a b).
    destruct (deval_minsert eta s k (mmul a b)) as [P1 P2].
    cbn [deval_mono fold_right fst snd]. fold (deval_mono eta a).
    dsimpl. rewrite P1, P2, I1, I2. split; ring.
Qed.

Lemma deval_pinsert (eta : symbol -> dual) (m : mono) (c : Q) (p : poly) :
  deq (deval_poly eta (pinsert m c p))
      (dadd (dmul (dconst c) (deval_mono eta m)) (deval_poly eta p)).
Proof.
  induction p as [|[m' c'] p [I1 I2]]; cbn [pinsert].
  - destruct (Qeq_bool c 0) eqn:E.
    + apply Qeq_bool_eq in E. cbn [deval_poly fold_right]. dsimpl. rewrite E. split; ring.
    + cbn [deval_poly fold_right fst snd]. dsimpl. rewrite Qred_correct. split; ring.
  - destruct (mono_eqb m m') eqn:Em.
    + apply mono_eqb_eq in Em. subst m'.
      destruct (Qeq_bool (c + c') 0) eqn:E.
      * apply Qeq_bool_eq in E.
        cbn [deval_poly fold_right fst snd]. fold (deval_poly eta p).
        dsimpl. split.
        -- setoid_replace (c * fst (deval_mono eta m) + (c' * fst (deval_mono eta m) + fst (deval_poly eta p)))
             with ((c + c') * fst (deval_mono eta m) + fst (deval_poly eta p)) by ring.
           rewrite E. ring.
        -- setoid_replace (c * snd (deval_mono eta m) + 0 * fst (deval_mono eta m)
                           + (c' * snd (deval_mono eta m) + 0 * fst (deval_mono eta m)
                              + snd (deval_poly eta p)))
             with ((c + c') * snd (deval_mono eta m) + snd (deval_poly eta p)) by ring.
           rewrite E. ring.
      * cbn [deval_poly fold_right fst snd]. fold (deval_poly eta p).
        dsimpl. rewrite Qred_correct. split; ring.
    + destruct (mono_ltb m' m).
      * destruct (Qeq_bool c 0) eqn:E.
        -- apply Qeq_bool_eq in E. dsimpl. rewrite E. split; ring.
        -- cbn [deval_poly fold_right fst snd]. fold (deval_poly eta p).
           dsimpl. rewrite Qred_correct. split; ring.
      * cbn [deval_poly fold_right fst snd]. fold (deval_poly eta p).
        fold (deval_poly eta (pinsert m c p)).
        dsimpl. rewrite I1, I2. split; ring.
Qed.


Lemma deval_padd (eta : symbol -> dual) (p q : poly) :
  deq (deval_poly eta (padd p q)) (dadd (deval_poly eta p) (deval_poly eta q)).
Proof.
  induction p as [|[m c] p [I1 I2]]; cbn [padd fold_right fst snd].
  - cbn [deval_poly fold_right]. dsimpl. split; ring.
  - fold (padd p q).
    destruct (deval_pinsert eta m c (padd p q)) as [P1 P2].
    cbn [deval_poly fold_right fst snd]. fold (deval_poly eta p).
    dsimpl. rewrite P1, P2, I1, I2. split; ring.
Qed.

Lemma deval_pscale (eta : symbol -> dual) (m : mono) (c : Q) (q : poly) :
  deq (deval_poly eta (pscale m c q))
      (dmul (dmul (dconst c) (deval_mono eta m)) (deval_poly eta q)).
Proof.
  induction q as [|[m' c'] q [I1 I2]]; cbn [pscale fold_right fst snd].
  - cbn [deval_poly fold_right]. dsimpl. split; ring.
  - fold (pscale m c q).
    destruct (deval_pinsert eta (mmul m m') (c * c') (pscale m c q)) as [P1 P2].
    destruct (deval_mmul eta m m') as [M1 M2].
    cbn [deval_poly fold_right fst snd]. fold (deval_poly eta q).
    dsimpl. rewrite P1, P2, I1, I2, M1, M2. split; ring.
Qed.

Lemma deval_pmul (eta : symbol -> dual) (p q : poly) :
  deq (deval_poly eta (pmul p q)) (dmul (deval_poly eta p) (deval_poly eta q)).
Proof.
  induction p as [|[m c] p [I1 I2]]; cbn [pmul fold_right fst snd].
  - cbn [deval_poly fold_right]. dsimpl. split; ring.
  - fold (pmul p q).
    destruct (deval_padd eta (pscale m c q) (pmul p q)) as [P1 P2].
    destruct (deval_pscale eta m c q) as [S1 S2].
    cbn [deval_poly fold_right fst snd]. fold (deval_poly eta p).
    dsimpl. rewrite P1, P2, S1, S2, I1, I2. split; ring.
Qed.

Lemma deval_pconst (eta : symbol -> dual) (c : Q) :
  deq (deval_poly eta (pconst c)) (dconst c).
Proof.
  unfold pconst. destruct (deval_pinsert eta [] c []) as [P1 P2].
  cbn [deval_poly deval_mono fold_right] in *.
  dsimpl. rewrite P1, P2. split; ring.
Qed.

Lemma deval_pvar (eta : symbol -> dual) (s : symbol) :
  deq (deval_poly eta (pvar s)) (eta s).
Proof.
  unfold pvar. cbn [deval_poly deval_mono fold_right fst snd dpow].
  dsimpl. split; ring.
Qed.

Lemma deval_ppow (eta : symbol -> dual) (p : poly) (n : nat) :
  deq (deval_poly eta (ppow p n)) (dpow (deval_poly eta p) n).
Proof.
  induction n as [|n IH]; cbn [ppow dpow].
  - apply deval_pconst.
  - eapply deq_trans; [apply deval_pmul|].
    apply dmul_proper; [apply deq_refl|exact IH].
Qed.

Lemma deval_norm (eta : symbol -> dual) (e : expr) :
  deq (deval_poly eta (norm e)) (deval eta e).
Proof.
  induction e as [q|s|a IHa b IHb|a IHa b IHb|a IHa n]; cbn [norm deval].
  - apply deval_pconst.
  - apply deval_pvar.
  - eapply deq_trans; [apply deval_padd|]. apply dadd_proper; assumption.
  - eapply deq_trans; [apply deval_pmul|]. apply dmul_proper; assumption.
  - eapply deq_trans; [apply deval_ppow|]. apply dpow_proper; assumption.
Qed.

Lemma deval_emit_mono (eta : symbol -> dual) (m : mono) :
  match emit_mono m with
  | Some e => deq (deval eta e) (deval_mono eta m)
  | None => deq (dconst 1) (deval_mono eta m)
  end.
Proof.
  induction m as [|[s k] m IH]; cbn [emit_mono].
  - apply deq_refl.
  - cbn [deval_mono fold_right fst snd]. fold (deval_mono eta m).
    assert (Hb : deq (deval eta (if Nat.eqb k 1 then ESym s else EPow (ESym s) k))
                     (dpow (eta s) k)).
    { destruct (Nat.eqb k 1) eqn:E.
      - apply Nat.eqb_eq in E. subst k. cbn [deval dpow]. dsimpl. split; ring.
      - apply deq_refl. }
    destruct (emit_mono m) as [r|].
    + cbn [deval]. apply dmul_proper; assumption.
    + destruct Hb as [B1 B2], IH as [I1 I2]. dsimpl.
      rewrite B1, B2, <- I1, <- I2. split; ring.
Qed.

Lemma deval_emit_term (eta : symbol -> dual) (t : mono * Q) :
  deq (deval eta (emit_term t)) (dmul (dconst (snd t)) (deval_mono eta (fst t))).
Proof.
  unfold emit_term. pose proof (deval_emit_mono eta (fst t)) as H.
  destruct (emit_mono (fst t)) as [e|].
  - destruct (q_eqb (snd t) 1) eqn:E.
    + apply q_eqb_eq in E. rewrite E. destruct H as [H1 H2].
      dsimpl. rewrite H1, H2. split; ring.
    + cbn [deval]. apply dmul_proper; [apply deq_refl|exact H].
  - cbn [deval]. destruct H as [H1 H2]. dsimpl. rewrite <- H1, <- H2. split; ring.
Qed.

Lemma deval_emit (eta : symbol -> dual) (p : poly) :
  deq (deval eta (emit p)) (deval_poly eta p).
Proof.
  induction p as [|t p IH]; cbn [emit].
  - apply deq_refl.
  - cbn [deval_poly fold_right]. fold (deval_poly eta p).
    destruct p as [|t' p'].
    + destruct (deval_emit_term eta t) as [T1 T2].
      cbn [deval_poly fold_right]. dsimpl. rewrite T1, T2. split; ring.
    + cbn [deval]. apply dadd_proper; [apply deval_emit_term|exact IH].
Qed.

Lemma deval_emit_norm (eta : symbol -> dual) (e : expr) :
  deq (deval eta (emit (norm e))) (deval eta e).
Proof. eapply deq_trans; [apply deval_emit|apply deval_norm]. Qed.

Lemma deval_auto (eta : symbol -> dual) (e : expr) :
  deq (deval eta (auto e)) (deval eta e).
Proof.
  destruct e as [q|s|a b|a b|a n]; cbn [auto].
  - cbn [deval]. dsimpl. rewrite Qred_correct. split; reflexivity.
  - apply deq_refl.
  - destruct (expanded a && expanded b); [apply deval_emit_norm|apply deq_refl].
  - destruct (_ && _); [apply deval_emit_norm|apply deq_refl].
  - destruct (_ && _); [apply deval_emit_norm|].
    destruct n as [|[|n]]; try apply deq_refl.
    cbn [deval dpow]. dsimpl. split; ring.
Qed.

Lemma deval_canon (eta : symbol -> dual) (e : expr) :
  deq (deval eta (canon e)) (deval eta e).
Proof.
  induction e as [q|s|a IHa b IHb|a IHa b IHb|a IHa n]; cbn [canon].
  - apply deval_auto.
  - apply deval_auto.
  - eapply deq_trans; [apply deval_auto|]. cbn [deval]. apply dadd_proper; assumption.
  - eapply deq_trans; [apply deval_auto|]. cbn [deval]. apply dmul_proper; assumption.
  - eapply deq_trans; [apply deval_auto|]. cbn [deval]. apply dpow_proper; assumption.
Qed.


(** First components are plain values. *)









(** Second components are derivatives. *)

Lemma qnat_S (n : nat) : qnat (S n) == qnat n + 1.
Proof.
  unfold qnat. rewrite Nat2Z.inj_succ. unfold Z.succ. rewrite inject_Z_plus.
  reflexivity.
Qed.


Lemma qnat_S_nonzero (n : nat) : ~ qnat (S n) == 0.
Proof.
  unfold qnat, Qeq. cbn [Qnum Qden inject_Z]. lia.
Qed.





















End ModelFacts.

(** * The script on the model *)

Module OnModel.

Import ModelFacts.

Local Open Scope Q_scope.

Abbreviation sx := Model.sx.
Abbreviation sC1 := Model.sC1.
Abbreviation sC2 := Model.sC2.
Abbreviation X := (Model.ESym Model.sx).
Abbreviation Num := Model.ENum.
Abbreviation inputs := model_inputs.

(** ** The examples of the specification *)

(** [f'(x) = 2x] and [f(0) = 0]: the constant resolves to 0. *)
Example default_inputs :
  @reconstruction model (inputs "2*x" "" "0,0" "" "" (-5) 5)
  = (Done {| fdoubleprime := None;
             f_expr := Model.EPow X 2;
             fprime_expr := Model.EMul (Num 2) X |}, []).
Proof. vm_compute. reflexivity. Qed.

(** Malformed text for [f'(x)] stops the script with one error. *)
Example malformed_derivative :
  exists msg,
    @run model (inputs "2*x +" "" "0,0" "" "" (-5) 5) = (Stopped, [StError msg]).
Proof. eexists. vm_compute. reflexivity. Qed.

(** A condition without its comma stops the script with the error of
    that input. *)
Example condition_without_comma :
  @run model (inputs "2*x" "" "0" "" "" (-5) 5)
  = (Stopped, [StError "Invalid f(a)=b input."]).
Proof. vm_compute. reflexivity. Qed.

(** An inconsistent pair of conditions leaves [C1] in place: the solver
    returns no solution and nothing is substituted. *)
Example inconsistent_conditions :
  @reconstruction model (inputs "2*x" "" "0,0" "1,5" "" (-5) 5)
  = (Done {| fdoubleprime := None;
             f_expr := Model.EAdd (Model.EPow X 2) (Model.ESym sC1);
             fprime_expr := Model.EMul (Num 2) X |}, []).
Proof. vm_compute. reflexivity. Qed.

(** ** Differentiating the reconstruction *)





(** C6.  For [f''(x) = 0], [f(0) = 1] and [f'(0) = 2], and any text for
    [f'(x)] that parses, both constants are resolved: the script ends its
    first four sections with [f(x) = 2*x + 1] and [f'(x) = 2], having
    written nothing. *)
Theorem linear_example (d c : string) (lo hi : Q) (e : Model.expr) :
  @sympify model d = inr e ->
  @reconstruction model (inputs d "0" "0,1" "0,2" c lo hi)
  = (Done {| fdoubleprime := Some (Num 0);
             f_expr := Model.EAdd (Model.EMul (Num 2) X) (Num 1);
             fprime_expr := Num 2 |}, []).
Proof.
  intros H. unfold reconstruction, inputs.
  cbn [derivative_str second_derivative_str ic_fx ic_fpx].
  unfold parse_expressions, try_except. rewrite H.
  vm_compute. reflexivity.
Qed.

Lemma linear_example_witness :
  @reconstruction model (inputs "2*x" "0" "0,1" "0,2" "" (-5) 5)
  = (Done {| fdoubleprime := Some (Num 0);
             f_expr := Model.EAdd (Model.EMul (Num 2) X) (Num 1);
             fprime_expr := Num 2 |}, []).
Proof.
  apply (linear_example "2*x" "" (-5) 5 (Model.EMul (Num 2) X)).
  vm_compute. reflexivity.
Defined.

(** ** The sample grid *)

Lemma set_last_app (l : list Q) (a v : Q) :
  Model.set_last (l ++ [a]) v = l ++ [v].
Proof.
  destruct l as [|y l]; [reflexivity|].
  unfold Model.set_last. cbn [app]. change (y :: l ++ [a]) with ((y :: l) ++ [a]).
  rewrite removelast_last. reflexivity.
Qed.

Lemma nth_map_seq (f : nat -> Q) (n s i : nat) :
  (i < n)%nat -> nth i (map f (seq s n)) 0 = f (s + i)%nat.
Proof.
  revert s i. induction n as [|n IH]; intros s i Hi; [lia|].
  destruct i as [|i]; cbn [seq map nth].
  - f_equal. lia.
  - rewrite IH by lia. f_equal. lia.
Qed.

(** From two samples on, the grid is the samples [i * step + start] for
    [i < num - 1] followed by [stop]. *)
Lemma linspace_list_closed (start stop : Q) (d : nat) :
  Model.linspace_list start stop (S (S d))
  = map (fun i => Model.qnat i * ((stop - start) / Model.qnat (S d)) + start)
      (seq 0 (S d))
    ++ [stop].
Proof.
  unfold Model.linspace_list.
  rewrite (seq_S (S d) 0), map_app. cbn [map]. apply set_last_app.
Qed.

Lemma nth_linspace_list (start stop : Q) (d i : nat) :
  (i <= S d)%nat ->
  nth i (Model.linspace_list start stop (S (S d))) 0
  == Model.qnat i * ((stop - start) / Model.qnat (S d)) + start.
Proof.
  intros Hi. rewrite linspace_list_closed.
  destruct (Nat.eq_dec i (S d)) as [->|Hne].
  - rewrite app_nth2 by (rewrite length_map, length_seq; lia).
    rewrite length_map, length_seq, Nat.sub_diag. cbn [nth].
    field. apply qnat_S_nonzero.
  - rewrite app_nth1 by (rewrite length_map, length_seq; lia).
    rewrite nth_map_seq by lia. reflexivity.
Qed.

Lemma qnat_lt (i j : nat) : (i < j)%nat -> Model.qnat i < Model.qnat j.
Proof.
  intros H. unfold Model.qnat. rewrite <- Zlt_Qlt. lia.
Qed.

Lemma step_positive (start stop : Q) (d : nat) :
  start < stop -> 0 < (stop - start) / Model.qnat (S d).
Proof.
  intros H. apply Qlt_shift_div_l.
  - change 0 with (Model.qnat 0). apply qnat_lt. lia.
  - rewrite Qmult_0_l. rewrite <- (Qplus_lt_l _ _ start). ring_simplify. exact H.
Qed.

(** C7.  For [xmin < xmax] the grid [x_vals] is a vector of exactly 1000
    samples; the first is [xmin], the last is [xmax], consecutive samples
    are [(xmax - xmin) / 999] apart, and the samples increase. *)
Theorem sample_grid (xmin xmax : Q) :
  xmin < xmax ->
  @x_vals model xmin xmax = Model.Vector (Model.linspace_list xmin xmax 1000)
  /\ length (Model.linspace_list xmin xmax 1000) = 1000%nat
  /\ nth 0 (Model.linspace_list xmin xmax 1000) 0 == xmin
  /\ last (Model.linspace_list xmin xmax 1000) 0 = xmax
  /\ (forall i, (i < 999)%nat ->
        nth (S i) (Model.linspace_list xmin xmax 1000) 0
        - nth i (Model.linspace_list xmin xmax 1000) 0
        == (xmax - xmin) / 999)
  /\ (forall i j, (i < j)%nat -> (j < 1000)%nat ->
        nth i (Model.linspace_list xmin xmax 1000) 0
        < nth j (Model.linspace_list xmin xmax 1000) 0).
Proof.
  intros Hlt.
  split; [reflexivity|].
  pose proof (linspace_list_closed xmin xmax 998) as Hc.
  pose proof (nth_linspace_list xmin xmax 998) as Hn.
  pose proof (step_positive xmin xmax 998 Hlt) as Hs.
  assert (H999 : Model.qnat 999 == 999) by reflexivity.
  set (g := Model.linspace_list xmin xmax 1000) in *. clearbody g.
  set (step := (xmax - xmin) / Model.qnat 999) in *.
  split; [rewrite Hc, length_app, length_map, length_seq; reflexivity|].
  split.
  { rewrite (Hn O) by lia. change (Model.qnat 0) with 0. ring. }
  split; [rewrite Hc; apply last_last|].
  split.
  - intros i Hi. rewrite (Hn (S i)), (Hn i) by lia.
    rewrite (qnat_S i). unfold step. rewrite H999. field.
  - intros i j Hij Hj. rewrite (Hn i), (Hn j) by lia.
    rewrite Qplus_lt_l. apply Qmult_lt_r; [exact Hs|].
    apply qnat_lt. exact Hij.
Qed.

Lemma sample_grid_witness :
  length (Model.linspace_list (-5) 5 1000) = 1000%nat
  /\ nth 0 (Model.linspace_list (-5) 5 1000) 0 == -5
  /\ last (Model.linspace_list (-5) 5 1000) 0 = 5.
Proof.
  destruct (sample_grid (-5) 5) as (_ & H1 & H2 & H3 & _); [reflexivity|].
  exact (conj H1 (conj H2 H3)).
Defined.

(** ** The unknowns of the solver *)

(** C2, as stated, fails: without a second derivative the reconstruction
    introduces [C1] only, and the solver is still asked for [C1] and [C2].
    It shows when the text of [f'(x)] mentions a symbol named [C2]: for
    [f'(x) = C2], [f(0) = 0] and [f'(0) = 5] the equations are [C1 = 0] and
    [C2 - 5 = 0]; the script solves for [C2] as well and ends with
    [f(x) = 5*x] and [f'(x) = 5], which solving for the introduced
    constant alone does not give. *)
Lemma unknowns_not_the_introduced_constants :
  @unknowns model <> @introduced_constants model None
  /\ exists f_expr fprime_expr equations,
       @reconstruct model (Model.ESym sC2) None = (Done (fprime_expr, f_expr), [])
       /\ @initial_conditions model f_expr fprime_expr "0,0" "0,5"
          = (Done equations, [])
       /\ equations = [Model.ESym sC1; Model.EAdd (Model.ESym sC2) (Num (-5))]
       /\ @solve_constants model f_expr fprime_expr equations
          = (Done (Model.EMul (Num 5) X, Num 5), [])
       /\ @solve_constants_spec model None f_expr fprime_expr equations
          <> @solve_constants model f_expr fprime_expr equations.
Proof.
  split; [discriminate|].
  eexists. eexists. eexists.
  split; [vm_compute; reflexivity|].
  split; [vm_compute; reflexivity|].
  split; [reflexivity|].
  split; [vm_compute; reflexivity|].
  intros H. vm_compute in H. discriminate H.
Qed.

(** ** Unresolved constants and the conversion to callables *)








(** ** Inflection points *)

(** C9 at the input [f''(x) = x - Symbol('a', real=True)]: the solve
    succeeds with the real solution [a], [float(a)] raises, and the list
    is left holding the expression [a]: it is neither empty nor made of
    floats. *)
Theorem inflection_points_keep_symbolic_solutions :
  exists fpp,
    @sympify model "x - Symbol('a', real=True)" = inr fpp
    /\ @solve model fpp X = inr [Model.ESym ("a", true)]
    /\ @is_real model (Model.ESym ("a", true)) = Some true
    /\ @float_of_expr model (Model.ESym ("a", true))
       = inl (Exception "TypeError" "Cannot convert expression to float")
    /\ @find_inflection_points model (Some fpp)
       = (Done [PyExpr (Model.ESym ("a", true))], []).
Proof.
  eexists.
  split; [vm_compute; reflexivity|].
  split; [vm_compute; reflexivity|].
  split; [reflexivity|]. split; [reflexivity|].
  vm_compute. reflexivity.
Qed.

(** ** The general properties at concrete inputs *)

Lemma reconstruct_formulas_witness :
  @reconstruct model (Model.EMul (Num 2) X) None
  = (Done (Model.EMul (Num 2) X, Model.EAdd (Model.EPow X 2) (Model.ESym sC1)), []).
Proof.
  destruct (@reconstruct_formulas model "2*x" "" (Model.EMul (Num 2) X) None [])
    as [_ H].
  - vm_compute. reflexivity.
  - apply (H (Model.EPow X 2)). vm_compute. reflexivity.
Defined.

Lemma substitution_atomic_witness :
  exists fprime fp0 f0 equations,
    @reconstruct model fprime None = (Done (fp0, f0), [])
    /\ ((exists sol rest,
           @solve_dict model equations (@unknowns model) = inr (sol :: rest)
           /\ Model.EPow X 2 = @subs_dict model f0 sol
           /\ Model.EMul (Num 2) X = @subs_dict model fp0 sol)
        \/ (@solve_dict model equations (@unknowns model) = inr []
            /\ Model.EPow X 2 = f0 /\ Model.EMul (Num 2) X = fp0)).
Proof.
  apply (@substitution_atomic model (inputs "2*x" "" "0,0" "" "" (-5) 5)
           {| fdoubleprime := None;
              f_expr := Model.EPow X 2;
              fprime_expr := Model.EMul (Num 2) X |} []).
  vm_compute. reflexivity.
Defined.



End OnModel.

(** * More properties of the script, whatever the libraries do

    How a run ends and what it writes, what each input can change, and
    what a completed run shows. *)

Section ScriptFacts.

Context {L : PyLibs}.

Local Open Scope script_scope.

(** *** Python's [split] and [strip] *)

Lemma split_without_separator (sep : ascii) (s : string) :
  ~ In sep (list_ascii_of_string s) -> split sep s = [s].
Proof.
  induction s as [|c s IH]; cbn [split list_ascii_of_string]; intros H.
  - reflexivity.
  - destruct (Ascii.eqb c sep) eqn:E.
    + apply Ascii.eqb_eq in E. subst. contradiction H. left. reflexivity.
    + rewrite IH; [reflexivity|]. intros Hin. apply H. right. exact Hin.
Qed.

Lemma split_length (sep : ascii) (s : string) :
  length (split sep s)
  = S (count_occ ascii_dec (list_ascii_of_string s) sep).
Proof.
  induction s as [|c s IH]; cbn [split list_ascii_of_string count_occ].
  - reflexivity.
  - destruct (Ascii.eqb c sep) eqn:E.
    + apply Ascii.eqb_eq in E. subst.
      destruct (ascii_dec sep sep) as [_|N]; [|contradiction].
      cbn [length]. rewrite IH. reflexivity.
    + apply Ascii.eqb_neq in E.
      destruct (ascii_dec c sep) as [Y|_]; [contradiction|].
      destruct (split sep s); [discriminate IH|rewrite <- IH; reflexivity].
Qed.

Lemma lstrip_blank (s : string) :
  truthy (lstrip s) = false <-> forallb py_isspace (list_ascii_of_string s) = true.
Proof.
  induction s as [|c s IH]; cbn [lstrip list_ascii_of_string forallb].
  - split; reflexivity.
  - destruct (py_isspace c); cbn [andb truthy]; [exact IH|].
    split; discriminate.
Qed.

Lemma rstrip_blank (s : string) :
  rstrip s = EmptyString <-> forallb py_isspace (list_ascii_of_string s) = true.
Proof.
  induction s as [|c s IH]; cbn [rstrip list_ascii_of_string forallb].
  - split; reflexivity.
  - destruct (rstrip s) as [|d t] eqn:E.
    + destruct (py_isspace c); cbn [andb].
      * split; intros _; [apply IH|]; reflexivity.
      * split; discriminate.
    + split; [discriminate|]. intros H. apply andb_prop in H as [_ H].
      apply IH in H. discriminate H.
Qed.

(** What [rstrip] leaves, when it leaves anything, ends with a character
    that is not white space. *)
Lemma rstrip_keeps_a_letter (s : string) :
  rstrip s <> EmptyString ->
  forallb py_isspace (list_ascii_of_string (rstrip s)) = false.
Proof.
  induction s as [|c s IH]; cbn [rstrip]; intros H.
  - contradiction H. reflexivity.
  - destruct (rstrip s) as [|d t] eqn:E.
    + destruct (py_isspace c) eqn:Ec; [contradiction H; reflexivity|].
      cbn. rewrite Ec. reflexivity.
    + assert (IH' := IH ltac:(discriminate)).
      cbn [list_ascii_of_string forallb] in *. rewrite IH'. apply andb_false_r.
Qed.

(** [s.strip()] is empty exactly when [s] is made of white space. *)
Lemma strip_blank (s : string) :
  truthy (strip s) = false <-> forallb py_isspace (list_ascii_of_string s) = true.
Proof.
  unfold strip. rewrite lstrip_blank. split.
  - intros H. apply rstrip_blank.
    destruct (rstrip s) as [|d t] eqn:E; [reflexivity|].
    assert (Hne : rstrip s <> EmptyString) by (rewrite E; discriminate).
    apply rstrip_keeps_a_letter in Hne. rewrite E in Hne. congruence.
  - intros H. apply rstrip_blank in H. rewrite H. reflexivity.
Qed.


(** *** How the sections end *)

Lemma ret_tidy {A} (a : A) : tidy (ret a).
Proof. reflexivity. Qed.

Lemma call_tidy {A} (r : Res A) : tidy (call r).
Proof. destruct r; reflexivity. Qed.

Lemma bind_tidy {A B} (m : Script A) (k : A -> Script B) :
  tidy m -> (forall a, tidy (k a)) -> tidy (bind m k).
Proof.
  unfold tidy. intros Hm Hk. rewrite bind_unfold.
  destruct m as [[a| |e] w]; cbn [fst snd] in *; try assumption.
  subst w. cbn [app]. exact (Hk a).
Qed.

Lemma stop_tidy {A} (msg : string) :
  error_messages msg -> tidy (st_error msg (@st_stop A)).
Proof. intros H. exists msg. split; [reflexivity|exact H]. Qed.

Lemma parse_expressions_tidy (d s : string) : tidy (parse_expressions d s).
Proof.
  unfold parse_expressions, try_except, rbind.
  apply bind_tidy.
  - destruct (sympify d) as [e|e]; [|apply ret_tidy].
    apply stop_tidy. left. eauto.
  - intros fprime. apply bind_tidy; [|intros; apply ret_tidy].
    destruct (truthy (strip s)); [|apply ret_tidy].
    destruct (sympify s) as [e|e]; [|apply ret_tidy].
    apply stop_tidy. right. left. eauto.
Qed.

Lemma reconstruct_tidy (fprime : Expr) (fdp : option Expr) :
  tidy (reconstruct fprime fdp).
Proof.
  unfold reconstruct. destruct fdp as [fpp|].
  - apply bind_tidy; [apply call_tidy|]. intros i1.
    apply bind_tidy; [apply call_tidy|]. intros; apply ret_tidy.
  - apply bind_tidy; [apply call_tidy|]. intros; apply ret_tidy.
Qed.

Lemma initial_conditions_tidy (f fp : Expr) (a b : string) :
  tidy (initial_conditions f fp a b).
Proof.
  unfold initial_conditions, try_except.
  apply bind_tidy.
  - destruct (condition f a); [|apply ret_tidy].
    apply stop_tidy. right. right. left. reflexivity.
  - intros eq1. destruct (truthy (strip b)); [|apply ret_tidy].
    apply bind_tidy; [|intros; apply ret_tidy].
    destruct (condition fp b); [|apply ret_tidy].
    apply stop_tidy. right. right. right. reflexivity.
Qed.

Lemma solve_constants_tidy (f fp : Expr) (eqs : list Expr) :
  tidy (solve_constants f fp eqs).
Proof.
  unfold solve_constants. apply bind_tidy; [apply call_tidy|].
  intros [|sol rest]; apply ret_tidy.
Qed.

Lemma reconstruction_tidy (i : Inputs pyfloat) : tidy (reconstruction i).
Proof.
  unfold reconstruction.
  apply bind_tidy; [apply parse_expressions_tidy|]. intros [fprime fdp].
  apply bind_tidy; [apply reconstruct_tidy|]. intros [fp0 f0].
  apply bind_tidy; [apply initial_conditions_tidy|]. intros eqs.
  apply bind_tidy; [apply solve_constants_tidy|]. intros [f1 fp1].
  apply ret_tidy.
Qed.

Lemma bind_never_stops {A B} (m : Script A) (k : A -> Script B) :
  never_stops m -> (forall a, never_stops (k a)) -> never_stops (bind m k).
Proof.
  unfold never_stops. intros Hm Hk. rewrite bind_unfold.
  destruct m as [[a| |e] w]; cbn [fst snd] in *; [apply Hk|congruence|discriminate].
Qed.

Lemma call_never_stops {A} (r : Res A) : never_stops (call r).
Proof. destruct r; discriminate. Qed.

Lemma ret_never_stops {A} (a : A) : never_stops (ret a).
Proof. discriminate. Qed.

Lemma numerical_lambdas_quiet (r : Reconstruction Expr) :
  tidy (numerical_lambdas r) /\ never_stops (numerical_lambdas r).
Proof.
  unfold numerical_lambdas. split.
  - apply bind_tidy; [apply call_tidy|]. intros g1.
    apply bind_tidy; [apply call_tidy|]. intros g2.
    apply bind_tidy; [|intros; apply ret_tidy].
    destruct (fdoubleprime r); [|apply ret_tidy].
    apply bind_tidy; [apply call_tidy|]. intros; apply ret_tidy.
  - apply bind_never_stops; [apply call_never_stops|]. intros g1.
    apply bind_never_stops; [apply call_never_stops|]. intros g2.
    apply bind_never_stops; [|intros; apply ret_never_stops].
    destruct (fdoubleprime r); [|apply ret_never_stops].
    apply bind_never_stops; [apply call_never_stops|]. intros; apply ret_never_stops.
Qed.

Lemma plotting_never_stops (lam : Lambdas ndarray) (xs : ndarray) :
  never_stops (plotting lam xs).
Proof.
  unfold plotting.
  apply bind_never_stops; [apply call_never_stops|]. intros v1.
  apply bind_never_stops; [apply call_never_stops|]. intros v2.
  apply bind_never_stops; [|intros; apply ret_never_stops].
  destruct (fpp_num lam); [|apply ret_never_stops].
  apply bind_never_stops; [apply call_never_stops|]. intros; apply ret_never_stops.
Qed.

Lemma after_critical_points_never_stops i r lam cps :
  never_stops (after_critical_points i r lam cps).
Proof.
  unfold after_critical_points. rewrite find_inflection_points_cases.
  apply bind_never_stops; [discriminate|]. intros infl.
  apply bind_never_stops; [apply plotting_never_stops|].
  intros; apply ret_never_stops.
Qed.

Lemma parse_critical_points_cases (c : string) :
  exists cps,
    parse_critical_points c = (Done cps, [])
    \/ (cps = []
        /\ parse_critical_points c
           = (Done [], [StWarning "Could not parse critical points."])).
Proof.
  unfold parse_critical_points, try_except.
  destruct (truthy (strip c)); [|exists []; left; reflexivity].
  destruct (floats (split comma c)) as [e|vs].
  - exists []. right. split; reflexivity.
  - exists vs. left. reflexivity.
Qed.

(** X1.  The messages of a run: a run that stops has written exactly one
    error, one of the four of the script, and nothing else; a run that
    does not stop has written no error, and at most the one warning. *)
Theorem messages_invariant (i : Inputs pyfloat) :
  match fst (run i) with
  | Stopped => exists msg, snd (run i) = [StError msg] /\ error_messages msg
  | Done _ | Raised _ =>
      snd (run i) = []
      \/ snd (run i) = [StWarning "Could not parse critical points."]
  end.
Proof.
  unfold run. rewrite bind_unfold.
  pose proof (reconstruction_tidy i) as Hr. unfold tidy in Hr.
  destruct (reconstruction i) as [[r| |e] w]; cbn [fst snd] in *;
    [subst w|exact Hr|left; exact Hr].
  cbn [app]. rewrite evaluation_unfold, bind_unfold.
  destruct (numerical_lambdas_quiet r) as [Hl Hn].
  unfold tidy, never_stops in Hl, Hn.
  destruct (numerical_lambdas r) as [[lam| |e] w]; cbn [fst snd] in *;
    [subst w|congruence|left; exact Hl].
  cbn [app]. rewrite bind_unfold.
  destruct (parse_critical_points_cases (critical_points_str i))
    as (cps & [Hc|[-> Hc]]); rewrite Hc; cbn [fst snd].
  - pose proof (after_critical_points_never_stops i r lam cps) as Hs.
    rewrite after_critical_points_writes_nothing. unfold never_stops in Hs.
    destruct (fst (after_critical_points i r lam cps)); auto. congruence.
  - pose proof (after_critical_points_never_stops i r lam []) as Hs.
    rewrite after_critical_points_writes_nothing. unfold never_stops in Hs.
    destruct (fst (after_critical_points i r lam [])); auto. congruence.
Qed.


(** *** Inverting the sections *)


Lemma parse_critical_points_done (c : string) :
  exists cps, fst (parse_critical_points c) = Done cps.
Proof.
  destruct (parse_critical_points_cases c) as (cps & [H|[-> H]]);
    rewrite H; cbn [fst]; eauto.
Qed.

Lemma numerical_lambdas_done_inv (r : Reconstruction Expr)
  (lam : Lambdas ndarray) (w : list UiEvent) :
  numerical_lambdas r = (Done lam, w) ->
  w = []
  /\ lambdify x (f_expr r) = inr (f_num lam)
  /\ lambdify x (fprime_expr r) = inr (fp_num lam)
  /\ match fdoubleprime r with
     | Some fpp => exists g, lambdify x fpp = inr g /\ fpp_num lam = Some g
     | None => fpp_num lam = None
     end.
Proof.
  unfold numerical_lambdas, call, bind, ret.
  destruct (lambdify x (f_expr r)) as [e|g1]; [intros H; discriminate H|].
  destruct (lambdify x (fprime_expr r)) as [e|g2]; [intros H; discriminate H|].
  destruct (fdoubleprime r) as [fpp|].
  - destruct (lambdify x fpp) as [e|g3]; [intros H; discriminate H|].
    intros H; inversion H; subst; cbn. eauto 6.
  - intros H; inversion H; subst; cbn. auto.
Qed.

Lemma plotting_done_inv (lam : Lambdas ndarray) (xs : ndarray)
  (c : Curves ndarray) (w : list UiEvent) :
  plotting lam xs = (Done c, w) ->
  w = []
  /\ f_num lam xs = inr (f_vals c)
  /\ fp_num lam xs = inr (fp_vals c)
  /\ match fpp_num lam with
     | Some g => exists v, g xs = inr v /\ fpp_vals c = Some v
     | None => fpp_vals c = None
     end.
Proof.
  unfold plotting, call, bind, ret.
  destruct (f_num lam xs) as [e|v1]; [intros H; discriminate H|].
  destruct (fp_num lam xs) as [e|v2]; [intros H; discriminate H|].
  destruct (fpp_num lam) as [g|].
  - destruct (g xs) as [e|v3]; [intros H; discriminate H|].
    intros H; inversion H; subst; cbn. eauto 6.
  - intros H; inversion H; subst; cbn. auto.
Qed.

(** A completed run went through every section. *)
Lemma run_done_inv (i : Inputs pyfloat) (o : Output pyfloat Expr ndarray) :
  fst (run i) = Done o ->
  exists r lam cps infl curves,
    reconstruction i = (Done r, [])
    /\ numerical_lambdas r = (Done lam, [])
    /\ fst (parse_critical_points (critical_points_str i)) = Done cps
    /\ snd (run i) = snd (parse_critical_points (critical_points_str i))
    /\ find_inflection_points (fdoubleprime r) = (Done infl, [])
    /\ plotting lam (x_vals (xmin i) (xmax i)) = (Done curves, [])
    /\ o = {| out_reconstruction := r;
              out_x_vals := x_vals (xmin i) (xmax i);
              out_curves := curves;
              out_critical_points := cps;
              out_inflection_points := infl;
              out_formulas := display_formulas r |}.
Proof.
  unfold run. rewrite bind_unfold.
  pose proof (reconstruction_tidy i) as Hr. unfold tidy in Hr.
  destruct (reconstruction i) as [[r| |e] w] eqn:Er; cbn [fst snd] in *;
    [subst w|intros H; discriminate H|intros H; discriminate H].
  cbn [app]. rewrite evaluation_unfold, bind_unfold.
  destruct (numerical_lambdas_quiet r) as [Hl _]. unfold tidy in Hl.
  destruct (numerical_lambdas r) as [[lam| |e] w] eqn:El; cbn [fst snd] in *;
    [subst w|intros H; discriminate H|intros H; discriminate H].
  cbn [app]. rewrite bind_unfold.
  destruct (parse_critical_points_done (critical_points_str i)) as (cps & Hc).
  rewrite Hc. cbn [fst snd]. rewrite after_critical_points_writes_nothing, app_nil_r.
  unfold after_critical_points.
  destruct (find_inflection_points (fdoubleprime r)) as [oi wi] eqn:Ei.
  pose proof Ei as Ei'.
  rewrite find_inflection_points_cases in Ei'. inversion Ei'; subst oi wi. clear Ei'.
  rewrite bind_unfold. cbn [fst snd]. rewrite bind_unfold.
  pose proof (plotting_writes_nothing lam (x_vals (xmin i) (xmax i))) as Hp.
  destruct (plotting lam (x_vals (xmin i) (xmax i))) as [[curves| |e] w] eqn:Ep;
    cbn [fst snd] in *; [subst w|intros H; discriminate H|intros H; discriminate H].
  intros H. inversion H; subst o.
  eexists r, lam, cps, _, curves.
  split; [reflexivity|]. split; [exact El|]. split; [reflexivity|].
  split; [reflexivity|]. split; [exact Ei|]. split; [exact Ep|]. reflexivity.
Qed.


(** *** The initial conditions (lines 93-106) *)

Lemma condition_inr_inv (e : Expr) (text : string) (v : Expr) :
  condition e text = inr v ->
  exists p1 p2 a b,
    split comma text = [p1; p2]
    /\ float_of_str p1 = inr a
    /\ float_of_str p2 = inr b
    /\ v = expr_sub (subs e x (of_float a)) (of_float b).
Proof.
  unfold condition, unpack_floats, rbind.
  destruct (split comma text) as [|p1 [|p2 [|p3 rest]]];
    try (intros H; discriminate H).
  - destruct (float_of_str p1); intros H; discriminate H.
  - destruct (float_of_str p1) as [e1|a] eqn:H1; [intros H; discriminate H|].
    destruct (float_of_str p2) as [e2|b] eqn:H2; [intros H; discriminate H|].
    intros H. inversion H. exists p1, p2, a, b. auto.
  - destruct (float_of_str p1) as [e1|a]; [intros H; discriminate H|].
    destruct (float_of_str p2) as [e2|b]; [intros H; discriminate H|].
    destruct (float_of_str p3); intros H; discriminate H.
Qed.

Lemma condition_one_comma (e : Expr) (text : string) (v : Expr) :
  condition e text = inr v ->
  count_occ ascii_dec (list_ascii_of_string text) comma = 1.
Proof.
  intros H. apply condition_inr_inv in H as (p1 & p2 & a & b & Hs & _).
  pose proof (split_length comma text) as Hl. rewrite Hs in Hl.
  cbn [length] in Hl. lia.
Qed.

Lemma condition_refuses (e : Expr) (text : string) :
  count_occ ascii_dec (list_ascii_of_string text) comma <> 1
  \/ (exists p ex, In p (split comma text) /\ float_of_str p = inl ex) ->
  exists ex, condition e text = inl ex.
Proof.
  intros H. destruct (condition e text) as [ex|v] eqn:Hc; [eauto|].
  exfalso. destruct H as [H|(p & ex & Hin & Hp)].
  - apply H. eapply condition_one_comma. exact Hc.
  - apply condition_inr_inv in Hc as (p1 & p2 & a & b & Hs & H1 & H2 & _).
    rewrite Hs in Hin. destruct Hin as [<-|[<-|[]]]; congruence.
Qed.

Lemma condition_inl_inv (e : Expr) (text : string) (ex : Exn) :
  condition e text = inl ex ->
  count_occ ascii_dec (list_ascii_of_string text) comma <> 1
  \/ (exists p ex', In p (split comma text) /\ float_of_str p = inl ex').
Proof.
  intros H.
  destruct (Nat.eq_dec (count_occ ascii_dec (list_ascii_of_string text) comma) 1)
    as [Hc|Hc]; [right|left; exact Hc].
  pose proof (split_length comma text) as Hl. rewrite Hc in Hl.
  revert H. unfold condition, unpack_floats, rbind.
  destruct (split comma text) as [|p1 [|p2 [|p3 rest]]]; try discriminate Hl.
  destruct (float_of_str p1) as [e1|a] eqn:H1.
  { intros _. exists p1, e1. split; [left; reflexivity|exact H1]. }
  destruct (float_of_str p2) as [e2|b] eqn:H2.
  { intros _. exists p2, e2. split; [right; left; reflexivity|exact H2]. }
  intros H. discriminate H.
Qed.

(** X2.  The body of either [try] succeeds exactly when the text splits
    at commas into two pieces that [float] both accepts; the equation is
    then the expression at the first number minus the second. *)
Theorem condition_accepts (e : Expr) (text : string) (v : Expr) :
  condition e text = inr v
  <-> exists p1 p2 a b,
        split comma text = [p1; p2]
        /\ float_of_str p1 = inr a
        /\ float_of_str p2 = inr b
        /\ v = expr_sub (subs e x (of_float a)) (of_float b).
Proof.
  split.
  - apply condition_inr_inv.
  - intros (p1 & p2 & a & b & Hs & H1 & H2 & ->).
    unfold condition, unpack_floats, rbind. rewrite Hs, H1, H2. reflexivity.
Qed.


(** *** What stops a run (lines 62-74 and 93-106) *)

(** X4.  A first derivative [sympify] refuses stops the run with the one
    message that carries the exception's text, whatever the other inputs
    are. *)
Theorem invalid_first_derivative_stops (i : Inputs pyfloat) (e : Exn) :
  sympify (derivative_str i) = inl e ->
  run i = (Stopped, [StError ("Invalid f'(x): " ++ exn_str e)]).
Proof.
  intros H. unfold run, reconstruction, parse_expressions, try_except.
  rewrite H. reflexivity.
Qed.


Lemma run_from_initial_conditions (i : Inputs pyfloat) (fprime : Expr)
  (fdp : option Expr) (fp0 f0 : Expr) (w1 w2 w : list UiEvent) :
  parse_expressions (derivative_str i) (second_derivative_str i)
  = (Done (fprime, fdp), w1) ->
  reconstruct fprime fdp = (Done (fp0, f0), w2) ->
  initial_conditions f0 fp0 (ic_fx i) (ic_fpx i) = (Stopped, w) ->
  run i = (Stopped, w).
Proof.
  intros Hp Hr Hi.
  pose proof (parse_expressions_tidy (derivative_str i) (second_derivative_str i)) as T1.
  pose proof (reconstruct_tidy fprime fdp) as T2.
  unfold tidy in T1, T2. rewrite Hp in T1. rewrite Hr in T2.
  cbn [fst snd] in T1, T2. subst w1 w2.
  unfold run, reconstruction, bind. rewrite Hp, Hr, Hi. reflexivity.
Qed.

(** X6.  Once the expressions are parsed and integrated, a text for
    [f(a) = b] that has not exactly one comma, or a piece of which [float]
    refuses, stops the run with the fixed message, whatever the exception
    was. *)
Theorem bad_first_condition_stops (i : Inputs pyfloat) (fprime : Expr)
  (fdp : option Expr) (fp0 f0 : Expr) (w1 w2 : list UiEvent) :
  parse_expressions (derivative_str i) (second_derivative_str i)
  = (Done (fprime, fdp), w1) ->
  reconstruct fprime fdp = (Done (fp0, f0), w2) ->
  count_occ ascii_dec (list_ascii_of_string (ic_fx i)) comma <> 1
  \/ (exists p ex, In p (split comma (ic_fx i)) /\ float_of_str p = inl ex) ->
  run i = (Stopped, [StError "Invalid f(a)=b input."]).
Proof.
  intros Hp Hr Hbad.
  destruct (condition_refuses f0 (ic_fx i) Hbad) as (ex & Hc).
  assert (Hi : initial_conditions f0 fp0 (ic_fx i) (ic_fpx i)
               = (Stopped, [StError "Invalid f(a)=b input."])).
  { unfold initial_conditions, try_except. rewrite Hc. reflexivity. }
  exact (run_from_initial_conditions i fprime fdp fp0 f0 w1 w2 _ Hp Hr Hi).
Qed.



Lemma bind_stopped_inv {A B} (m : Script A) (k : A -> Script B) :
  fst (bind m k) = Stopped ->
  (fst m = Stopped /\ bind m k = (Stopped, snd m))
  \/ exists a w, m = (Done a, w) /\ fst (k a) = Stopped
       /\ bind m k = (Stopped, w ++ snd (k a)).
Proof.
  rewrite bind_unfold. destruct m as [[a| |e'] w]; cbn [fst snd]; intros H.
  - right. exists a, w. rewrite H. auto.
  - left. auto.
  - discriminate H.
Qed.

Lemma reconstruct_never_stops (fprime : Expr) (fdp : option Expr) :
  never_stops (reconstruct fprime fdp).
Proof.
  unfold reconstruct. destruct fdp as [fpp|].
  - apply bind_never_stops; [apply call_never_stops|]. intros i1.
    apply bind_never_stops; [apply call_never_stops|].
    intros; apply ret_never_stops.
  - apply bind_never_stops; [apply call_never_stops|].
    intros; apply ret_never_stops.
Qed.

Lemma solve_constants_never_stops (f fp : Expr) (eqs : list Expr) :
  never_stops (solve_constants f fp eqs).
Proof.
  unfold solve_constants. apply bind_never_stops; [apply call_never_stops|].
  intros [|sol rest]; apply ret_never_stops.
Qed.

Lemma evaluation_never_stops (i : Inputs pyfloat) (r : Reconstruction Expr) :
  never_stops (evaluation i r).
Proof.
  rewrite evaluation_unfold.
  apply bind_never_stops; [apply numerical_lambdas_quiet|]. intros lam.
  apply bind_never_stops; [|intros; apply after_critical_points_never_stops].
  destruct (parse_critical_points_cases (critical_points_str i))
    as (cps & [H|[_ H]]); unfold never_stops; rewrite H; discriminate.
Qed.

Lemma parse_expressions_stopped (d s : string) :
  fst (parse_expressions d s) = Stopped ->
  (exists e, sympify d = inl e
     /\ snd (parse_expressions d s) = [StError ("Invalid f'(x): " ++ exn_str e)])
  \/ (exists e, truthy (strip s) = true /\ sympify s = inl e
        /\ snd (parse_expressions d s)
           = [StError ("Invalid f''(x): " ++ exn_str e)]).
Proof.
  unfold parse_expressions, try_except, rbind, bind, ret, st_error, st_stop.
  destruct (sympify d) as [e|fprime]; [intros _; left; eauto|].
  destruct (truthy (strip s)); [|intros H; discriminate H].
  destruct (sympify s) as [e|fpp]; [intros _; right; eauto|].
  intros H; discriminate H.
Qed.

Lemma initial_conditions_stopped (f fp : Expr) (a b : string) :
  fst (initial_conditions f fp a b) = Stopped ->
  (exists ex, condition f a = inl ex
     /\ snd (initial_conditions f fp a b) = [StError "Invalid f(a)=b input."])
  \/ (exists ex, truthy (strip b) = true /\ condition fp b = inl ex
        /\ snd (initial_conditions f fp a b) = [StError "Invalid f'(c)=d input."]).
Proof.
  unfold initial_conditions, try_except, bind, ret, st_error, st_stop.
  destruct (condition f a) as [e|eq1]; [intros _; left; eauto|].
  destruct (truthy (strip b)); [|intros H; discriminate H].
  destruct (condition fp b) as [e|eq2]; [intros _; right; eauto|].
  intros H; discriminate H.
Qed.

(** X8.  A run stops for one of four reasons only, and the message names
    it: [sympify] refused the first derivative; it refused a second
    derivative that is not blank; the text of [f(a) = b] has not exactly
    one comma or holds a piece [float] refuses; or the text of
    [f'(c) = d] is not blank and is malformed in the same way. *)
Theorem stop_reasons (i : Inputs pyfloat) :
  fst (run i) = Stopped ->
  (exists e, sympify (derivative_str i) = inl e
     /\ snd (run i) = [StError ("Invalid f'(x): " ++ exn_str e)])
  \/ (exists e, truthy (strip (second_derivative_str i)) = true
        /\ sympify (second_derivative_str i) = inl e
        /\ snd (run i) = [StError ("Invalid f''(x): " ++ exn_str e)])
  \/ ((count_occ ascii_dec (list_ascii_of_string (ic_fx i)) comma <> 1
       \/ exists p ex, In p (split comma (ic_fx i)) /\ float_of_str p = inl ex)
      /\ snd (run i) = [StError "Invalid f(a)=b input."])
  \/ (truthy (strip (ic_fpx i)) = true
      /\ (count_occ ascii_dec (list_ascii_of_string (ic_fpx i)) comma <> 1
          \/ exists p ex, In p (split comma (ic_fpx i)) /\ float_of_str p = inl ex)
      /\ snd (run i) = [StError "Invalid f'(c)=d input."]).
Proof.
  unfold run. intros H.
  apply bind_stopped_inv in H as [[H Hrun]|(r & w & _ & H & _)].
  2:{ exfalso. exact (evaluation_never_stops i r H). }
  rewrite Hrun. cbn [snd]. clear Hrun. revert H. unfold reconstruction. intros H.
  apply bind_stopped_inv in H as [[H Hrun]|([fprime fdp] & w1 & Hp & H & Hrun)].
  { rewrite Hrun. cbn [snd].
    apply parse_expressions_stopped in H as [(e & He & Hw)|(e & Ht & He & Hw)].
    - left. eauto.
    - right. left. eauto. }
  pose proof (parse_expressions_tidy (derivative_str i) (second_derivative_str i)) as T1.
  unfold tidy in T1. rewrite Hp in T1. cbn [fst snd] in T1. subst w1.
  rewrite Hrun. cbn [snd app]. clear Hrun.
  apply bind_stopped_inv in H as [[H Hrun]|([fp0 f0] & w2 & Hr & H & Hrun)].
  { exfalso. exact (reconstruct_never_stops fprime fdp H). }
  pose proof (reconstruct_tidy fprime fdp) as T2.
  unfold tidy in T2. rewrite Hr in T2. cbn [fst snd] in T2. subst w2.
  rewrite Hrun. cbn [snd app]. clear Hrun.
  apply bind_stopped_inv in H as [[H Hrun]|(eqs & w3 & _ & H & _)].
  { rewrite Hrun. cbn [snd].
    apply initial_conditions_stopped in H as [(ex & Hc & Hw)|(ex & Ht & Hc & Hw)].
    - right. right. left. split; [|exact Hw].
      eapply condition_inl_inv. exact Hc.
    - right. right. right. split; [exact Ht|]. split; [|exact Hw].
      eapply condition_inl_inv. exact Hc. }
  exfalso.
  apply bind_stopped_inv in H as [[H _]|([f1 fp1] & w4 & _ & H & _)].
  - exact (solve_constants_never_stops f0 fp0 eqs H).
  - discriminate H.
Qed.

(** *** Exceptions nobody catches *)










(** *** Critical and inflection points (lines 127-140) *)


Lemma real_floats_succeeds (sols : list Expr) :
  (forall v, In v sols -> is_real v = Some true ->
     exists f, float_of_expr v = inr f) ->
  exists fs, real_floats sols = inr fs.
Proof.
  induction sols as [|v sols IH]; intros H; cbn [real_floats].
  - eauto.
  - destruct IH as (fs & IH).
    { intros u Hu. apply H. right. exact Hu. }
    destruct (is_real v) as [[|]|] eqn:Hv; eauto.
    destruct (H v (or_introl eq_refl) Hv) as (f & Hf).
    unfold rbind. rewrite Hf, IH. eauto.
Qed.

(** X11.  In a completed run with a second derivative whose solutions
    with [is_real] true all convert, the inflection points are the floats
    of exactly those solutions, in the order [solve] gave them; solutions
    whose [is_real] is false or unknown are left out without a message. *)
Theorem inflection_points_are_the_real_solutions (i : Inputs pyfloat)
  (o : Output pyfloat Expr ndarray) (fpp : Expr) (sols : list Expr) :
  fst (run i) = Done o ->
  fdoubleprime (out_reconstruction o) = Some fpp ->
  solve fpp x = inr sols ->
  (forall v, In v sols -> is_real v = Some true ->
     exists f, float_of_expr v = inr f) ->
  exists fs,
    out_inflection_points o = map PyFloat fs
    /\ Forall2 (fun v f => float_of_expr v = inr f)
         (filter (fun v => match is_real v with Some true => true | _ => false end)
            sols)
         fs.
Proof.
  intros H Hf Hs Hall.
  apply run_done_inv in H as (r & lam & cps & infl & curves & _ & _ & _ & _ & Hi & _ & ->).
  cbn [out_reconstruction out_inflection_points] in *.
  destruct (real_floats_succeeds sols Hall) as (fs & Hfs).
  exists fs. split.
  - rewrite find_inflection_points_cases, Hf, Hs, Hfs in Hi. congruence.
  - apply real_floats_filter. exact Hfs.
Qed.

(** *** The shape of what a completed run shows *)

Lemma reconstruction_second_derivative (i : Inputs pyfloat)
  (r : Reconstruction Expr) (w : list UiEvent) :
  reconstruction i = (Done r, w) ->
  match fdoubleprime r with
  | Some fpp =>
      truthy (strip (second_derivative_str i)) = true
      /\ sympify (second_derivative_str i) = inr fpp
  | None => truthy (strip (second_derivative_str i)) = false
  end.
Proof.
  intros H. apply reconstruction_done_inv in H
    as (fprime & fp0 & f0 & eqs & w3 & Hp & _).
  apply parse_expressions_done in Hp as (_ & _ & Hp). exact Hp.
Qed.

Lemma run_done_third_curve (i : Inputs pyfloat)
  (o : Output pyfloat Expr ndarray) :
  fst (run i) = Done o ->
  match fdoubleprime (out_reconstruction o) with
  | Some _ => exists v, fpp_vals (out_curves o) = Some v
  | None => fpp_vals (out_curves o) = None /\ out_inflection_points o = []
  end.
Proof.
  intros H.
  apply run_done_inv in H
    as (r & lam & cps & infl & curves & _ & Hl & _ & _ & Hi & Hp & ->).
  cbn [out_reconstruction out_curves out_inflection_points].
  apply numerical_lambdas_done_inv in Hl as (_ & _ & _ & Hl).
  apply plotting_done_inv in Hp as (_ & _ & _ & Hp).
  rewrite find_inflection_points_cases in Hi.
  destruct (fdoubleprime r) as [fpp|].
  - destruct Hl as (g & _ & Hg). rewrite Hg in Hp.
    destruct Hp as (v & _ & Hv). eauto.
  - rewrite Hl in Hp. inversion Hi. auto.
Qed.


(** X13.  The curves of a completed run are the callables [lambdify]
    made of the final expressions and of the second derivative, all called
    on the one grid of 1000 points between the ends of the slider; the
    formulas are printed from the same expressions. *)
Theorem curves_of_completed_run (i : Inputs pyfloat)
  (o : Output pyfloat Expr ndarray) :
  fst (run i) = Done o ->
  out_x_vals o = linspace (xmin i) (xmax i) 1000
  /\ (exists g, lambdify x (f_expr (out_reconstruction o)) = inr g
        /\ g (out_x_vals o) = inr (f_vals (out_curves o)))
  /\ (exists g, lambdify x (fprime_expr (out_reconstruction o)) = inr g
        /\ g (out_x_vals o) = inr (fp_vals (out_curves o)))
  /\ match fdoubleprime (out_reconstruction o) with
     | Some fpp =>
         exists g v, lambdify x fpp = inr g /\ g (out_x_vals o) = inr v
           /\ fpp_vals (out_curves o) = Some v
     | None => fpp_vals (out_curves o) = None
     end
  /\ out_formulas o
     = ("f(x) = " ++ latex (f_expr (out_reconstruction o)))%string
       :: ("f'(x) = " ++ latex (fprime_expr (out_reconstruction o)))%string
       :: match fdoubleprime (out_reconstruction o) with
          | Some fpp => [("f''(x) = " ++ latex fpp)%string]
          | None => []
          end.
Proof.
  intros H.
  apply run_done_inv in H as (r & lam & cps & infl & curves & _ & Hl & _ & _ & _ & Hp & ->).
  cbn [out_reconstruction out_curves out_formulas out_x_vals].
  apply numerical_lambdas_done_inv in Hl as (_ & L1 & L2 & L3).
  apply plotting_done_inv in Hp as (_ & P1 & P2 & P3).
  split; [reflexivity|].
  split; [eauto|]. split; [eauto|]. split; [|reflexivity].
  destruct (fdoubleprime r) as [fpp|].
  - destruct L3 as (g & L3 & L4). rewrite L4 in P3. destruct P3 as (v & P3 & P4).
    eauto.
  - rewrite L3 in P3. exact P3.
Qed.


(** *** What an input can change *)

Lemma after_critical_points_cases i r lam cps :
  after_critical_points i r lam cps
  = match plotting lam (x_vals (xmin i) (xmax i)) with
    | (Done curves, _) =>
        (Done {| out_reconstruction := r;
                 out_x_vals := x_vals (xmin i) (xmax i);
                 out_curves := curves;
                 out_critical_points := cps;
                 out_inflection_points :=
                   match fst (find_inflection_points (fdoubleprime r)) with
                   | Done infl => infl
                   | _ => []
                   end;
                 out_formulas := display_formulas r |}, [])
    | (Stopped, _) => (Stopped, [])
    | (Raised e, _) => (Raised e, [])
    end.
Proof.
  unfold after_critical_points.
  rewrite find_inflection_points_cases. rewrite bind_unfold. cbn [fst snd app].
  rewrite bind_unfold.
  pose proof (plotting_writes_nothing lam (x_vals (xmin i) (xmax i))) as Hp.
  destruct (plotting lam (x_vals (xmin i) (xmax i))) as [[c| |e] w];
    cbn [fst snd] in *; subst; reflexivity.
Qed.

(** X14.  The text of the critical points changes the critical points
    and the warning, and nothing else: two runs that differ only in it end
    the same way, and when they complete they show the same expressions,
    grid, curves, inflection points and formulas. *)
Theorem critical_text_only_moves_markers (d s a b c c' : string)
  (lo hi : pyfloat) :
  match fst (run (Build_Inputs d s a b c lo hi)),
        fst (run (Build_Inputs d s a b c' lo hi)) with
  | Done o, Done o' =>
      out_reconstruction o' = out_reconstruction o
      /\ out_x_vals o' = out_x_vals o
      /\ out_curves o' = out_curves o
      /\ out_inflection_points o' = out_inflection_points o
      /\ out_formulas o' = out_formulas o
  | Stopped, Stopped =>
      snd (run (Build_Inputs d s a b c lo hi))
      = snd (run (Build_Inputs d s a b c' lo hi))
  | Raised e, Raised e' => e = e'
  | _, _ => False
  end.
Proof.
  set (i := Build_Inputs d s a b c lo hi).
  set (i' := Build_Inputs d s a b c' lo hi).
  assert (Hrec : reconstruction i' = reconstruction i) by reflexivity.
  unfold run. rewrite !bind_unfold, Hrec.
  destruct (reconstruction i) as [[r| |e] w]; cbn [fst snd]; auto.
  rewrite (evaluation_unfold i), (evaluation_unfold i').
  do 2 rewrite (bind_unfold (numerical_lambdas r)).
  pose proof (numerical_lambdas_quiet r) as [_ Hn]. unfold never_stops in Hn.
  destruct (numerical_lambdas r) as [[lam| |e] wl]; cbn [fst snd]; auto.
  destruct (parse_critical_points_done (critical_points_str i)) as (cps & Hc).
  destruct (parse_critical_points_done (critical_points_str i')) as (cps' & Hc').
  rewrite !bind_unfold, Hc, Hc'. cbn [fst].
  rewrite !after_critical_points_cases.
  change (x_vals (xmin i') (xmax i')) with (x_vals (xmin i) (xmax i)).
  pose proof (plotting_never_stops lam (x_vals (xmin i) (xmax i))) as Hs.
  unfold never_stops in Hs.
  destruct (plotting lam (x_vals (xmin i) (xmax i))) as [[curves| |e] wp];
    cbn [fst snd out_reconstruction out_x_vals out_curves out_inflection_points
           out_formulas] in *; auto.
  congruence.
Qed.


(** X15.  The slider changes the grid and the curves, and nothing else:
    two runs that differ only in the range write the same messages, stop
    together, and when both complete they show the same expressions,
    critical points, inflection points and formulas. *)
Theorem range_only_moves_the_grid (d s a b c : string)
  (lo hi lo' hi' : pyfloat) :
  snd (run (Build_Inputs d s a b c lo hi))
  = snd (run (Build_Inputs d s a b c lo' hi'))
  /\ (fst (run (Build_Inputs d s a b c lo hi)) = Stopped
      <-> fst (run (Build_Inputs d s a b c lo' hi')) = Stopped)
  /\ forall o o',
       fst (run (Build_Inputs d s a b c lo hi)) = Done o ->
       fst (run (Build_Inputs d s a b c lo' hi')) = Done o' ->
       out_reconstruction o' = out_reconstruction o
       /\ out_critical_points o' = out_critical_points o
       /\ out_inflection_points o' = out_inflection_points o
       /\ out_formulas o' = out_formulas o.
Proof.
  set (i := Build_Inputs d s a b c lo hi).
  set (i' := Build_Inputs d s a b c lo' hi').
  assert (Hrec : reconstruction i' = reconstruction i) by reflexivity.
  unfold run. rewrite !bind_unfold, Hrec.
  destruct (reconstruction i) as [[r| |e] w]; cbn [fst snd];
    [|repeat split; intros; try reflexivity; discriminate
     |repeat split; intros; try reflexivity; discriminate].
  rewrite (evaluation_unfold i), (evaluation_unfold i').
  do 2 rewrite (bind_unfold (numerical_lambdas r)).
  destruct (numerical_lambdas r) as [[lam| |e] wl]; cbn [fst snd];
    [|repeat split; intros; try reflexivity; discriminate
     |repeat split; intros; try reflexivity; discriminate].
  change (critical_points_str i') with (critical_points_str i).
  destruct (parse_critical_points_done (critical_points_str i)) as (cps & Hc).
  rewrite !bind_unfold, Hc. cbn [fst].
  rewrite !after_critical_points_writes_nothing.
  split; [reflexivity|].
  pose proof (after_critical_points_never_stops i r lam cps) as H1.
  pose proof (after_critical_points_never_stops i' r lam cps) as H2.
  unfold never_stops in H1, H2.
  split; [split; intros H; contradiction|].
  intros o o'. rewrite !after_critical_points_cases.
  destruct (plotting lam (x_vals (xmin i) (xmax i))) as [[curves| |e] wp];
    cbn [fst]; try (intros H; discriminate H).
  destruct (plotting lam (x_vals (xmin i') (xmax i'))) as [[curves'| |e] wp'];
    cbn [fst]; try (intros _ H; discriminate H).
  intros Ho Ho'. inversion Ho; inversion Ho'; subst. cbn. auto.
Qed.

(** X16.  The three optional texts are read only when they hold
    something else than white space: a second derivative, a condition
    [f'(c) = d] and a critical-point text made of white space give the run
    the empty texts give. *)
Theorem blank_optional_texts (d s a b c : string) (lo hi : pyfloat) :
  forallb py_isspace (list_ascii_of_string s) = true ->
  forallb py_isspace (list_ascii_of_string b) = true ->
  forallb py_isspace (list_ascii_of_string c) = true ->
  run (Build_Inputs d s a b c lo hi) = run (Build_Inputs d "" a "" "" lo hi).
Proof.
  intros Hs Hb Hc.
  apply strip_blank in Hs, Hb, Hc.
  unfold run, reconstruction, evaluation, parse_expressions, initial_conditions,
    parse_critical_points.
  cbn [derivative_str second_derivative_str ic_fx ic_fpx critical_points_str
       xmin xmax].
  rewrite Hs, Hb, Hc. reflexivity.
Qed.


(** X17.  The second derivative of a completed run, and with it the
    inflection points, depend on the second-derivative text alone; the
    third curve depends on that text and on the range.  The first
    derivative, the initial conditions and the critical points never reach
    them. *)
Theorem second_derivative_depends_on_its_text (i i' : Inputs pyfloat)
  (o o' : Output pyfloat Expr ndarray) :
  second_derivative_str i' = second_derivative_str i ->
  fst (run i) = Done o ->
  fst (run i') = Done o' ->
  fdoubleprime (out_reconstruction o') = fdoubleprime (out_reconstruction o)
  /\ out_inflection_points o' = out_inflection_points o
  /\ (xmin i' = xmin i -> xmax i' = xmax i ->
      fpp_vals (out_curves o') = fpp_vals (out_curves o)).
Proof.
  intros Hs H H'.
  apply run_done_inv in H
    as (r & lam & cps & infl & curves & Hr & Hl & _ & _ & Hi & Hp & ->).
  apply run_done_inv in H'
    as (r' & lam' & cps' & infl' & curves' & Hr' & Hl' & _ & _ & Hi' & Hp' & ->).
  cbn [out_reconstruction out_curves out_inflection_points].
  apply reconstruction_second_derivative in Hr, Hr'. rewrite Hs in Hr'.
  apply numerical_lambdas_done_inv in Hl as (_ & _ & _ & Hl).
  apply numerical_lambdas_done_inv in Hl' as (_ & _ & _ & Hl').
  apply plotting_done_inv in Hp as (_ & _ & _ & Hp).
  apply plotting_done_inv in Hp' as (_ & _ & _ & Hp').
  assert (Hf : fdoubleprime r' = fdoubleprime r).
  { destruct (fdoubleprime r) as [fpp|], (fdoubleprime r') as [fpp'|].
    - destruct Hr as [_ Hr], Hr' as [_ Hr']. congruence.
    - destruct Hr as [Hr _]. congruence.
    - destruct Hr' as [Hr' _]. congruence.
    - reflexivity. }
  rewrite Hf in *.
  split; [reflexivity|]. split; [congruence|].
  intros Hlo Hhi. rewrite Hlo, Hhi in Hp'.
  destruct (fdoubleprime r) as [fpp|].
  - destruct Hl as (g & Hg & Hlam), Hl' as (g' & Hg' & Hlam').
    rewrite Hlam in Hp. rewrite Hlam' in Hp'.
    destruct Hp as (v & Hv & ->), Hp' as (v' & Hv' & ->).
    assert (g' = g) by congruence. subst g'. congruence.
  - rewrite Hl in Hp. rewrite Hl' in Hp'. congruence.
Qed.

(** X18.  The critical points of a completed run, and the messages it
    writes, depend on the critical-point text alone. *)
Theorem critical_points_depend_on_their_text (i i' : Inputs pyfloat)
  (o o' : Output pyfloat Expr ndarray) :
  critical_points_str i' = critical_points_str i ->
  fst (run i) = Done o ->
  fst (run i') = Done o' ->
  out_critical_points o' = out_critical_points o
  /\ snd (run i') = snd (run i).
Proof.
  intros Hs H H'.
  apply run_done_inv in H
    as (r & lam & cps & infl & curves & _ & _ & Hc & Hw & _ & _ & ->).
  apply run_done_inv in H'
    as (r' & lam' & cps' & infl' & curves' & _ & _ & Hc' & Hw' & _ & _ & ->).
  cbn [out_critical_points]. rewrite Hs in Hc', Hw'.
  split; congruence.
Qed.

End ScriptFacts.

(** ** The figure *)

Section FigureFacts.

Context {L : PyLibs}.

Lemma filter_flat_map_nil {A B} (p : B -> bool) (f : A -> list B) (l : list A) :
  (forall a, filter p (f a) = []) -> filter p (flat_map f l) = [].
Proof.
  intros H. induction l as [|a l IH]; [reflexivity|].
  cbn [flat_map]. rewrite filter_app, H, IH. reflexivity.
Qed.

(** X19.  The figure of a completed run has two subplots or three, never
    one; every call is made on a subplot that exists; and each subplot
    gets exactly one curve, drawn on the grid of the run. *)
Theorem figure_subplots (i : Inputs pyfloat) (o : Output pyfloat Expr ndarray) :
  fst (run i) = Done o ->
  2 <= num_plots (fdoubleprime (out_reconstruction o))
  /\ Forall (fun c => draw_axis c < num_plots (fdoubleprime (out_reconstruction o)))
       (figure o)
  /\ map draw_axis (filter is_plot (figure o))
     = seq 0 (num_plots (fdoubleprime (out_reconstruction o)))
  /\ forall k xs ys, In (Plot k xs ys) (figure o) ->
       xs = linspace (xmin i) (xmax i) 1000.
Proof.
  intros H. pose proof (run_done_third_curve i o H) as Hshape.
  assert (Hx : out_x_vals o = linspace (xmin i) (xmax i) 1000).
  { apply run_done_inv in H
      as (r & lam & cps & infl & curves & _ & _ & _ & _ & _ & _ & ->).
    reflexivity. }
  unfold figure. rewrite Hx.
  assert (Hfilter : forall (f : Draw pyfloat Expr ndarray -> bool) l1 l2,
             filter f (l1 ++ l2) = filter f l1 ++ filter f l2)
    by (intros; apply filter_app).
  destruct (fdoubleprime (out_reconstruction o)) as [fpp|].
  - destruct Hshape as (v & Hv). rewrite Hv.
    split; [cbn; lia|]. split; [|split].
    + repeat (apply Forall_app; split); repeat constructor; cbn; try lia.
      * apply Forall_forall. intros c Hin. apply in_flat_map in Hin as (cp & _ & Hin).
        destruct Hin as [<-|[<-|[]]]; cbn; lia.
      * apply Forall_forall. intros c Hin. apply in_flat_map in Hin as (ip & _ & Hin).
        destruct Hin as [<-|[<-|[]]]; cbn; lia.
    + rewrite !Hfilter, !filter_flat_map_nil by (intros; reflexivity). reflexivity.
    + intros k xs ys Hin.
      repeat (apply in_app_or in Hin as [Hin|Hin]).
      * destruct Hin as [Hin|[Hin|[Hin|[]]]]; inversion Hin; reflexivity.
      * destruct Hin as [Hin|[Hin|[Hin|[]]]]; inversion Hin; reflexivity.
      * destruct Hin as [Hin|[Hin|[Hin|[]]]]; inversion Hin; reflexivity.
      * apply in_flat_map in Hin as (cp & _ & Hin).
        destruct Hin as [Hin|[Hin|[]]]; discriminate Hin.
      * apply in_flat_map in Hin as (ip & _ & Hin).
        destruct Hin as [Hin|[Hin|[]]]; discriminate Hin.
      * destruct Hin as [Hin|[]]; discriminate Hin.
  - destruct Hshape as (Hv & Hi). rewrite ?Hv, Hi.
    split; [cbn; lia|]. split; [|split].
    + repeat (apply Forall_app; split); repeat constructor; cbn; try lia.
      apply Forall_forall. intros c Hin. apply in_flat_map in Hin as (cp & _ & Hin).
      destruct Hin as [<-|[<-|[]]]; cbn; lia.
    + rewrite !Hfilter, !filter_flat_map_nil by (intros; reflexivity). reflexivity.
    + intros k xs ys Hin.
      repeat (apply in_app_or in Hin as [Hin|Hin]).
      * destruct Hin as [Hin|[Hin|[Hin|[]]]]; inversion Hin; reflexivity.
      * destruct Hin as [Hin|[Hin|[Hin|[]]]]; inversion Hin; reflexivity.
      * destruct Hin.
      * apply in_flat_map in Hin as (cp & _ & Hin).
        destruct Hin as [Hin|[Hin|[]]]; discriminate Hin.
      * destruct Hin.
      * destruct Hin as [Hin|[]]; discriminate Hin.
Qed.

(** X20.  The vertical lines of the figure of a completed run: a line in
    the default colour on the subplots of [f] and [f'] for each critical
    point, a red line on the subplots of [f] and [f''] for each inflection
    point, and no other. *)
Theorem figure_markers (i : Inputs pyfloat) (o : Output pyfloat Expr ndarray)
  (k : nat) (v : PyVal pyfloat Expr) (color : option string) :
  fst (run i) = Done o ->
  In (AxVLine k v color) (figure o)
  <-> ((k = 0 \/ k = 1) /\ color = None
       /\ exists cp, v = PyFloat cp /\ In cp (out_critical_points o))
      \/ ((k = 0 \/ k = 2) /\ color = Some "red"
          /\ In v (out_inflection_points o)).
Proof.
  intros H. pose proof (run_done_third_curve i o H) as Hshape.
  unfold figure. rewrite !in_app_iff, !in_flat_map.
  destruct (fdoubleprime (out_reconstruction o)) as [fpp|].
  - destruct Hshape as (u & Hu). rewrite Hu. split.
    + intros [Hin|[Hin|[Hin|[(cp & Hcp & Hin)|[(ip & Hip & Hin)|Hin]]]]].
      * destruct Hin as [Hin|[Hin|[Hin|[]]]]; discriminate Hin.
      * destruct Hin as [Hin|[Hin|[Hin|[]]]]; discriminate Hin.
      * destruct Hin as [Hin|[Hin|[Hin|[]]]]; discriminate Hin.
      * left. destruct Hin as [Hin|[Hin|[]]]; inversion Hin; subst; eauto 6.
      * right. destruct Hin as [Hin|[Hin|[]]]; inversion Hin; subst; eauto 6.
      * destruct Hin as [Hin|[]]; discriminate Hin.
    + intros [(Hk & -> & cp & -> & Hcp)|(Hk & -> & Hip)].
      * right. right. right. left. exists cp. split; [exact Hcp|].
        destruct Hk as [->| ->]; cbn; auto.
      * right. right. right. right. left. exists v. split; [exact Hip|].
        destruct Hk as [->| ->]; cbn; auto.
  - destruct Hshape as (Hu & Hi). rewrite ?Hu, Hi. split.
    + intros [Hin|[Hin|[Hin|[(cp & Hcp & Hin)|[(ip & Hip & Hin)|Hin]]]]].
      * destruct Hin as [Hin|[Hin|[Hin|[]]]]; discriminate Hin.
      * destruct Hin as [Hin|[Hin|[Hin|[]]]]; discriminate Hin.
      * destruct Hin.
      * left. destruct Hin as [Hin|[Hin|[]]]; inversion Hin; subst; eauto 6.
      * destruct Hip.
      * destruct Hin as [Hin|[]]; discriminate Hin.
    + intros [(Hk & -> & cp & -> & Hcp)|(Hk & -> & Hip)].
      * right. right. right. left. exists cp. split; [exact Hcp|].
        destruct Hk as [->| ->]; cbn; auto.
      * destruct Hip.
Qed.

End FigureFacts.

(** * The properties on runs of the model *)

Module RunsOnModel.

Abbreviation inputs := model_inputs.
Abbreviation output := model_output.

Lemma model_output_done (i : Inputs Q) :
  model_completes i = true -> fst (@run model i) = Done (model_output i).
Proof.
  unfold model_completes, model_output.
  destruct (fst (@run model i)); [reflexivity|discriminate|discriminate].
Qed.


Lemma invalid_first_derivative_stops_witness :
  exists msg,
    @run model (inputs "2*x +" "x" "0,0" "" "" (-5) 5) = (Stopped, [StError msg]).
Proof.
  eexists.
  eapply (@invalid_first_derivative_stops model (inputs "2*x +" "x" "0,0" "" "" (-5) 5)).
  vm_compute. reflexivity.
Defined.


Lemma bad_first_condition_stops_witness :
  @run model (inputs "2*x" "" "0;1" "1,2" "" (-5) 5)
  = (Stopped, [StError "Invalid f(a)=b input."]).
Proof.
  eapply (@bad_first_condition_stops model (inputs "2*x" "" "0;1" "1,2" "" (-5) 5)).
  - vm_compute. reflexivity.
  - vm_compute. reflexivity.
  - left. vm_compute. discriminate.
Defined.


Lemma stop_reasons_witness :
  (exists e, @sympify model "2*x" = inl e
     /\ snd (@run model (inputs "2*x" "" "0;1" "" "" (-5) 5))
        = [StError ("Invalid f'(x): " ++ exn_str e)])
  \/ (exists e, truthy (strip "") = true
        /\ @sympify model "" = inl e
        /\ snd (@run model (inputs "2*x" "" "0;1" "" "" (-5) 5))
           = [StError ("Invalid f''(x): " ++ exn_str e)])
  \/ ((count_occ ascii_dec (list_ascii_of_string "0;1") comma <> 1
       \/ exists p ex, In p (split comma "0;1")
            /\ @float_of_str model p = inl ex)
      /\ snd (@run model (inputs "2*x" "" "0;1" "" "" (-5) 5))
         = [StError "Invalid f(a)=b input."])
  \/ (truthy (strip "") = true
      /\ (count_occ ascii_dec (list_ascii_of_string "") comma <> 1
          \/ exists p ex, In p (split comma "")
               /\ @float_of_str model p = inl ex)
      /\ snd (@run model (inputs "2*x" "" "0;1" "" "" (-5) 5))
         = [StError "Invalid f'(c)=d input."]).
Proof.
  apply (@stop_reasons model (inputs "2*x" "" "0;1" "" "" (-5) 5)).
  vm_compute. reflexivity.
Defined.



Lemma inflection_points_are_the_real_solutions_witness :
  exists fs,
    out_inflection_points (output (inputs "2*x" "x - 1" "0,0" "0,0" "" (-5) 5))
    = map PyFloat fs
    /\ Forall2 (fun v f => @float_of_expr model v = inr f)
         (filter (fun v => match @is_real model v with
                           | Some true => true
                           | _ => false
                           end) [Model.ENum 1])
         fs.
Proof.
  apply (@inflection_points_are_the_real_solutions model
           (inputs "2*x" "x - 1" "0,0" "0,0" "" (-5) 5)
           (output (inputs "2*x" "x - 1" "0,0" "0,0" "" (-5) 5))
           (Model.EAdd (Model.ESym Model.sx) (Model.ENum (-1))) [Model.ENum 1]).
  - apply model_output_done. vm_compute. reflexivity.
  - vm_compute. reflexivity.
  - vm_compute. reflexivity.
  - intros v [<-|[]] _. eexists. vm_compute. reflexivity.
Defined.


Lemma curves_of_completed_run_witness :
  out_x_vals (output (inputs "2*x" "" "0,0" "" "" (-5) 5))
  = @linspace model (-5)%Q 5%Q 1000
  /\ exists g,
       @lambdify model x
         (f_expr (out_reconstruction (output (inputs "2*x" "" "0,0" "" "" (-5) 5))))
       = inr g
       /\ g (out_x_vals (output (inputs "2*x" "" "0,0" "" "" (-5) 5)))
          = inr (f_vals (out_curves (output (inputs "2*x" "" "0,0" "" "" (-5) 5)))).
Proof.
  destruct (@curves_of_completed_run model
              (inputs "2*x" "" "0,0" "" "" (-5) 5)
              (output (inputs "2*x" "" "0,0" "" "" (-5) 5))) as (Hx & Hf & _).
  - apply model_output_done. vm_compute. reflexivity.
  - exact (conj Hx Hf).
Defined.

Lemma blank_optional_texts_witness :
  @run model (inputs "2*x" " " "0,0" "  " " " (-5) 5)
  = @run model (inputs "2*x" "" "0,0" "" "" (-5) 5).
Proof.
  apply (@blank_optional_texts model "2*x" " " "0,0" "  " " " (-5)%Q 5%Q);
    reflexivity.
Defined.

Lemma figure_subplots_witness :
  map draw_axis
    (filter is_plot (figure (output (inputs "2*x" "x - 1" "0,0" "0,0" "1" (-5) 5))))
  = seq 0
      (num_plots
         (fdoubleprime
            (out_reconstruction (output (inputs "2*x" "x - 1" "0,0" "0,0" "1" (-5) 5))))).
Proof.
  destruct (@figure_subplots model
              (inputs "2*x" "x - 1" "0,0" "0,0" "1" (-5) 5)
              (output (inputs "2*x" "x - 1" "0,0" "0,0" "1" (-5) 5)))
    as (_ & _ & Hplots & _).
  - apply model_output_done. vm_compute. reflexivity.
  - exact Hplots.
Defined.

Lemma figure_markers_witness :
  In (AxVLine 2 (@PyFloat Q Model.expr 1%Q) (Some "red"))
    (figure (output (inputs "2*x" "x - 1" "0,0" "0,0" "1" (-5) 5)))
  <-> ((2 = 0 \/ 2 = 1) /\ Some "red" = None
       /\ exists cp,
            @PyFloat Q Model.expr 1%Q = PyFloat cp
            /\ In cp (out_critical_points
                        (output (inputs "2*x" "x - 1" "0,0" "0,0" "1" (-5) 5))))
      \/ ((2 = 0 \/ 2 = 2) /\ Some "red" = Some "red"
          /\ In (@PyFloat Q Model.expr 1%Q)
               (out_inflection_points
                  (output (inputs "2*x" "x - 1" "0,0" "0,0" "1" (-5) 5)))).
Proof.
  apply (@figure_markers model (inputs "2*x" "x - 1" "0,0" "0,0" "1" (-5) 5)).
  apply model_output_done. vm_compute. reflexivity.
Defined.


Lemma second_derivative_depends_on_its_text_witness :
  out_inflection_points (output (inputs "x" "x - 1" "1,1" "2,3" "4" (-5) 5))
  = out_inflection_points (output (inputs "2*x" "x - 1" "0,0" "0,0" "" (-5) 5)).
Proof.
  destruct (@second_derivative_depends_on_its_text model
              (inputs "2*x" "x - 1" "0,0" "0,0" "" (-5) 5)
              (inputs "x" "x - 1" "1,1" "2,3" "4" (-5) 5)
              (output (inputs "2*x" "x - 1" "0,0" "0,0" "" (-5) 5))
              (output (inputs "x" "x - 1" "1,1" "2,3" "4" (-5) 5)))
    as (_ & H & _).
  - reflexivity.
  - apply model_output_done. vm_compute. reflexivity.
  - apply model_output_done. vm_compute. reflexivity.
  - exact H.
Defined.

Lemma critical_points_depend_on_their_text_witness :
  out_critical_points (output (inputs "x" "x - 1" "1,1" "2,3" "1, 2.5" 0 1))
  = out_critical_points (output (inputs "2*x" "" "0,0" "" "1, 2.5" (-5) 5)).
Proof.
  destruct (@critical_points_depend_on_their_text model
              (inputs "2*x" "" "0,0" "" "1, 2.5" (-5) 5)
              (inputs "x" "x - 1" "1,1" "2,3" "1, 2.5" 0 1)
              (output (inputs "2*x" "" "0,0" "" "1, 2.5" (-5) 5))
              (output (inputs "x" "x - 1" "1,1" "2,3" "1, 2.5" 0 1)))
    as (H & _).
  - reflexivity.
  - apply model_output_done. vm_compute. reflexivity.
  - apply model_output_done. vm_compute. reflexivity.
  - exact H.
Defined.

End RunsOnModel.
